(** * SimpleRaft: the replicated metadata service of SurfStore

    A shallow embedding of [src/surfstore.py], [src/server.py] and
    [src/state.py].  Python integers are [Z], lists are [list], dictionaries
    are [gmap]; a method that mutates [self] becomes a function from the
    server to the new server and the outcome of the call. *)

From Stdlib Require Import ZArith Lia.
From stdpp Require Import gmap strings list fin_maps.

Local Open Scope Z_scope.

(** ** Python sequences *)

Module Py.

(** [len(l)] *)
Definition len {A} (l : list A) : Z := Z.of_nat (length l).

(** [l[i]]: a negative index counts from the end; [None] is IndexError. *)
Definition get {A} (l : list A) (i : Z) : option A :=
  if i <? 0 then
    if i + len l <? 0 then None else l !! Z.to_nat (i + len l)
  else l !! Z.to_nat i.

(** The start position of the slice [l[i:]], clipped to the list. *)
Definition slice_start {A} (l : list A) (i : Z) : nat :=
  Z.to_nat (if i <? 0 then Z.max 0 (len l + i) else Z.min i (len l)).

(** [l[i:]] *)
Definition slice_from {A} (l : list A) (i : Z) : list A :=
  drop (slice_start l i) l.

(** [del l[i:]] *)
Definition del_from {A} (l : list A) (i : Z) : list A :=
  take (slice_start l i) l.

(** [l[i:] = e] *)
Definition assign_from {A} (l : list A) (i : Z) (e : list A) : list A :=
  take (slice_start l i) l ++ e.

(** [l[-1]] guarded by [if l], as in [logs[-1][0] if logs else 0]. *)
Definition last_or {A B} (f : A → B) (d : B) (l : list A) : B :=
  match l with
  | [] => d
  | _ => match get l (-1) with Some x => f x | None => d end
  end.

(** [(a, b) <= (c, d)] on tuples of integers. *)
Definition pair_le (p q : Z * Z) : bool :=
  (p.1 <? q.1) || ((p.1 =? q.1) && (p.2 <=? q.2)).

End Py.

(** ** Outcomes of a call *)

Inductive exn : Set :=
| IndexError
| KeyError
| ValueError
| AttributeError
| AssertionError
| NotLeader.   (* Exception("isCrashed or is not Leader") *)

(** A call returns, raises, or is still in one of its busy-wait loops. *)
Inductive res (A : Type) : Type :=
| Ok (a : A)
| Raise (e : exn)
| Spin.
Arguments Ok {A} a.
Arguments Raise {A} e.
Arguments Spin {A}.

(** ** surfstore.py *)

Abbreviation hash := string.
Abbreviation cmd := (string * Z * list hash)%type.
Abbreviation file_infos_t := (gmap string (Z * list hash)).

Module SurfStore.

(** [getfileinfomap] *)
Definition getfileinfomap (file_infos : file_infos_t) : file_infos_t :=
  file_infos.

(** [updatefile]: the store after the call and what the call gave. *)
Definition updatefile (file_infos : file_infos_t)
    (filename : string) (version : Z) (blocklist : list hash)
  : file_infos_t * res bool :=
  match file_infos !! filename with
  | Some (v, _) =>
      if negb (version =? v + 1) then (file_infos, Ok false)
      else (<[filename := (version, blocklist)]> file_infos, Ok true)
  | None =>
      if negb (version =? 1) then (file_infos, Raise AssertionError)
      else (<[filename := (version, blocklist)]> file_infos, Ok true)
  end.

End SurfStore.

(** ** state.py: the role objects *)

(** A log entry [(term, (filename, version, blocklist))]. *)
Abbreviation entry := (Z * cmd)%type.

(** The role object held in [server.state]; [None] there is the crashed
    server.  A [Leader] owns the dictionaries [next_indexes] and
    [match_indexes]. *)
Inductive State : Type :=
| Follower (received_reponse : bool)
| Candidate
| Leader (next_indexes match_indexes : gmap Z Z).

(** The argument of [transit_state]. *)
Inductive StateClass : Set := FollowerC | CandidateC | LeaderC.

(** The arguments of the two consensus RPCs, as a proxy sends them. *)
Record RequestVoteArgs := mkRV {
  rv_term : Z; rv_candidate_id : Z; rv_log_index : Z; rv_log_term : Z }.

Record AppendEntriesArgs := mkAE {
  ae_term : Z; ae_prev_index : Z; ae_prev_term : Z;
  ae_entries : list entry; ae_leader_commit : Z }.

(** ** server.py *)

Module SurfstoreServer.

Record t := mk {
  file_infos : file_infos_t;     (* surfstore.file_infos *)
  num_servers : Z;
  proxies : list Z;              (* the keys of the proxies dictionary *)
  id : Z;
  current_term : Z;
  voted_for : option Z;
  logs : list entry;
  commit_index : Z;
  last_applied : Z;
  lock : bool;                   (* true: the consensus lock is held *)
  num_up : Z;
  is_crashed : bool;
  state : option State;
}.

Definition set_file_infos (x : file_infos_t) (s : t) : t :=
  mk x (num_servers s) (proxies s) (id s) (current_term s) (voted_for s)
     (logs s) (commit_index s) (last_applied s) (lock s) (num_up s)
     (is_crashed s) (state s).
Definition set_current_term (x : Z) (s : t) : t :=
  mk (file_infos s) (num_servers s) (proxies s) (id s) x (voted_for s)
     (logs s) (commit_index s) (last_applied s) (lock s) (num_up s)
     (is_crashed s) (state s).
Definition set_voted_for (x : option Z) (s : t) : t :=
  mk (file_infos s) (num_servers s) (proxies s) (id s) (current_term s) x
     (logs s) (commit_index s) (last_applied s) (lock s) (num_up s)
     (is_crashed s) (state s).
Definition set_logs (x : list entry) (s : t) : t :=
  mk (file_infos s) (num_servers s) (proxies s) (id s) (current_term s)
     (voted_for s) x (commit_index s) (last_applied s) (lock s) (num_up s)
     (is_crashed s) (state s).
Definition set_commit_index (x : Z) (s : t) : t :=
  mk (file_infos s) (num_servers s) (proxies s) (id s) (current_term s)
     (voted_for s) (logs s) x (last_applied s) (lock s) (num_up s)
     (is_crashed s) (state s).
Definition set_last_applied (x : Z) (s : t) : t :=
  mk (file_infos s) (num_servers s) (proxies s) (id s) (current_term s)
     (voted_for s) (logs s) (commit_index s) x (lock s) (num_up s)
     (is_crashed s) (state s).
Definition set_lock (x : bool) (s : t) : t :=
  mk (file_infos s) (num_servers s) (proxies s) (id s) (current_term s)
     (voted_for s) (logs s) (commit_index s) (last_applied s) x (num_up s)
     (is_crashed s) (state s).
Definition set_num_up (x : Z) (s : t) : t :=
  mk (file_infos s) (num_servers s) (proxies s) (id s) (current_term s)
     (voted_for s) (logs s) (commit_index s) (last_applied s) (lock s) x
     (is_crashed s) (state s).
Definition set_is_crashed (x : bool) (s : t) : t :=
  mk (file_infos s) (num_servers s) (proxies s) (id s) (current_term s)
     (voted_for s) (logs s) (commit_index s) (last_applied s) (lock s)
     (num_up s) x (state s).
Definition set_state (x : option State) (s : t) : t :=
  mk (file_infos s) (num_servers s) (proxies s) (id s) (current_term s)
     (voted_for s) (logs s) (commit_index s) (last_applied s) (lock s)
     (num_up s) (is_crashed s) x.

(** [State.__init__]: [self.majority = self.server.num_servers // 2 + 1] *)
Definition majority (s : t) : Z := num_servers s / 2 + 1.

(** [__init__] followed by its call of [crash()]. *)
Definition init (proxies : list Z) (id num_servers : Z) : t :=
  mk ∅ num_servers proxies id 0 None [] 0 0 false 1 true None.

(** The dictionary [{server_id: v for server_id in proxies.keys()
    if server_id != server.id}] of [Leader.__init__]. *)
Definition peer_dict (s : t) (v : Z) : gmap Z Z :=
  list_to_map ((λ k, (k, v)) <$> filter (λ k, k ≠ id s) (proxies s)).

(** [StateClass(self)] *)
Definition new_state (c : StateClass) (s : t) : State :=
  match c with
  | FollowerC => Follower false
  | CandidateC => Candidate
  | LeaderC => Leader (peer_dict s (Py.len (logs s) + 1)) (peer_dict s 0)
  end.

(** [transit_state]; the caller holds the lock. *)
Definition transit_state (c : option StateClass) (s : t) : t :=
  match c with
  | None => set_state None s
  | Some c => set_state (Some (new_state c s)) s
  end.

(** [isLeader] *)
Definition isLeader (s : t) : bool :=
  match state s with Some (Leader _ _) => true | _ => false end.

(** [crash]; [with self.lock] waits while the lock is held. *)
Definition crash (s : t) : t * res bool :=
  if lock s then (s, Spin)
  else (transit_state None (set_is_crashed true s), Ok true).

(** [restore] *)
Definition restore (s : t) : t * res bool :=
  if lock s then (s, Spin)
  else (transit_state (Some FollowerC) (set_is_crashed false s), Ok true).

(** [isCrashed] *)
Definition isCrashed (s : t) : t * res bool :=
  if lock s then (s, Spin) else (s, Ok (is_crashed s)).

(** [on_RequestVote] and [on_AppendEntries] of the role objects: only a
    Follower records the observation. *)
Definition on_RequestVote (st : State) : State :=
  match st with Follower _ => Follower true | _ => st end.
Definition on_AppendEntries (st : State) : State :=
  match st with Follower _ => Follower true | _ => st end.

(** [__check_term] *)
Definition check_term (term : Z) (s : t) : t * bool :=
  if term <? current_term s then (s, false)
  else if term >? current_term s then
    (transit_state (Some FollowerC)
       (set_voted_for None (set_current_term term s)), true)
  else (s, true).

(** [(self.logs[-1][0] if self.logs else 0, len(self.logs))] *)
Definition last_log (s : t) : Z * Z :=
  (Py.last_or fst 0 (logs s), Py.len (logs s)).

(** [requestVote] *)
Definition requestVote (s : t) (term candidate_id log_index log_term : Z)
  : t * res (Z * bool) :=
  if lock s then (s, Ok (-1, false))
  else
    let s := set_lock true s in
    if is_crashed s then (set_lock false s, Ok (-1, false))
    else
      match state s with
      | None => (s, Raise AttributeError)
      | Some st =>
          let s := set_state (Some (on_RequestVote st)) s in
          let '(s, ok) := check_term term s in
          if negb ok then (set_lock false s, Ok (current_term s, false))
          else
            let is_leader :=
              match voted_for s with
              | None => true
              | Some v => v =? candidate_id
              end in
            let up_to_date :=
              Py.pair_le (last_log s) (log_term, log_index) in
            let vote_granted := is_leader && up_to_date in
            let s :=
              if vote_granted then set_voted_for (Some candidate_id) s
              else s in
            (set_lock false s, Ok (term, vote_granted))
      end.

(** The conflict-detection loop of [appendEntries]:
    [for index, entry in enumerate(entries, prev_index)]. *)
Fixpoint conflict_loop (logs : list entry) (index : Z)
    (entries : list entry) : res (list entry) :=
  match entries with
  | [] => Ok logs
  | e :: rest =>
      if index <? Py.len logs then
        match Py.get logs index with
        | None => Raise IndexError
        | Some x =>
            if negb (x.1 =? e.1) then Ok (Py.del_from logs index)
            else conflict_loop logs (index + 1) rest
        end
      else conflict_loop logs (index + 1) rest
  end.

(** The whole [if entries:] block on the log alone, past the consistency
    check: the loop, then [self.logs[prev_index:] = entries]. *)
Definition reconcile (logs : list entry) (prev_index : Z)
    (entries : list entry) : res (list entry) :=
  match conflict_loop logs prev_index entries with
  | Ok logs' => Ok (Py.assign_from logs' prev_index entries)
  | Raise e => Raise e
  | Spin => Spin
  end.

(** [len(self.logs) < prev_index or
     (prev_index > 0 and self.logs[prev_index - 1][0] != prev_term)];
    [None] is IndexError. *)
Definition mismatch (logs : list entry) (prev_index prev_term : Z)
  : option bool :=
  if Py.len logs <? prev_index then Some true
  else if prev_index >? 0 then
    match Py.get logs (prev_index - 1) with
    | None => None
    | Some x => Some (negb (x.1 =? prev_term))
    end
  else Some false.

(** [for idx in range(last_applied, commit_index):
      self.surfstore.updatefile( *self.logs[idx][1])];
    [n] is the number of iterations left. *)
Fixpoint apply_loop (n : nat) (idx : Z) (logs : list entry)
    (fi : file_infos_t) : file_infos_t * res unit :=
  match n with
  | O => (fi, Ok tt)
  | S n' =>
      match Py.get logs idx with
      | None => (fi, Raise IndexError)
      | Some e =>
          let '(filename, version, blocklist) := e.2 in
          match SurfStore.updatefile fi filename version blocklist with
          | (fi', Raise x) => (fi', Raise x)
          | (fi', _) => apply_loop n' (idx + 1) logs fi'
          end
      end
  end.

(** The tail of [appendEntries], from [if leader_commit > ...] on. *)
Definition commit_and_apply (s : t) (leader_commit : Z)
  : t * res (Z * bool) :=
  let s :=
    if leader_commit >? commit_index s then
      set_commit_index (Z.min leader_commit (Py.len (logs s))) s
    else s in
  if commit_index s >? last_applied s then
    match apply_loop (Z.to_nat (commit_index s - last_applied s))
            (last_applied s) (logs s) (file_infos s) with
    | (fi, Ok _) =>
        let s := set_last_applied (commit_index s) (set_file_infos fi s) in
        (set_lock false s, Ok (current_term s, true))
    | (fi, Raise e) => (set_file_infos fi s, Raise e)
    | (fi, Spin) => (set_file_infos fi s, Spin)
    end
  else (set_lock false s, Ok (current_term s, true)).

(** [appendEntries] *)
Definition appendEntries (s : t) (term prev_index prev_term : Z)
    (entries : list entry) (leader_commit : Z) : t * res (Z * bool) :=
  if lock s then (s, Ok (-1, false))
  else
    let s := set_lock true s in
    if is_crashed s then (set_lock false s, Ok (-1, false))
    else
      match state s with
      | None => (s, Raise AttributeError)
      | Some st =>
          let s := set_state (Some (on_AppendEntries st)) s in
          let '(s, ok) := check_term term s in
          if negb ok then (set_lock false s, Ok (current_term s, false))
          else
            match entries with
            | [] => commit_and_apply s leader_commit
            | _ :: _ =>
                match mismatch (logs s) prev_index prev_term with
                | None => (s, Raise IndexError)
                | Some true => (s, Ok (current_term s, false))
                | Some false =>
                    match conflict_loop (logs s) prev_index entries with
                    | Ok logs' =>
                        commit_and_apply
                          (set_logs
                             (Py.assign_from logs' prev_index entries) s)
                          leader_commit
                    | Raise e => (s, Raise e)
                    | Spin => (s, Spin)
                    end
                end
            end
      end.

(** [getfileinfomap] *)
Definition getfileinfomap (s : t) : t * res file_infos_t :=
  if isLeader s && (num_up s <? num_servers s / 2 + 1) then (s, Spin)
  else if isLeader s then (s, Ok (SurfStore.getfileinfomap (file_infos s)))
  else (s, Raise NotLeader).

(** [updatefile], up to [pending_index = len(self.logs)]. *)
Definition updatefile_append (s : t) (filename : string) (version : Z)
    (blocklist : list hash) : t * res Z :=
  if isLeader s then
    if lock s then (s, Spin)
    else
      let s :=
        set_logs
          (logs s ++ [(current_term s, (filename, version, blocklist))]) s in
      (s, Ok (Py.len (logs s)))
  else (s, Raise NotLeader).

(** [updatefile], from the wait for [pending_index] on. *)
Definition updatefile_wait (s : t) (pending_index : Z) (filename : string)
    (version : Z) (blocklist : list hash) : t * res bool :=
  if isLeader s && (commit_index s <? pending_index) then (s, Spin)
  else if isLeader s then
    let s := set_last_applied pending_index s in
    let '(fi, r) :=
      SurfStore.updatefile (file_infos s) filename version blocklist in
    (set_file_infos fi s, r)
  else (s, Raise NotLeader).

(** [updatefile] when nothing else runs between its two halves. *)
Definition updatefile (s : t) (filename : string) (version : Z)
    (blocklist : list hash) : t * res bool :=
  match updatefile_append s filename version blocklist with
  | (s, Ok pending_index) =>
      updatefile_wait s pending_index filename version blocklist
  | (s, Raise e) => (s, Raise e)
  | (s, Spin) => (s, Spin)
  end.

(** [tester_getversion]; [None] is KeyError. *)
Definition tester_getversion (s : t) (filename : string) : option Z :=
  fst <$> file_infos s !! filename.

End SurfstoreServer.

(** ** state.py: one iteration of each role's background loop

    The answers of the peers are an input of the round: [None] is the
    OSError of a call that timed out.  The loop of a role object that is no
    longer the server's state has been stopped: its iteration ends the loop
    and changes nothing. *)

Module Roles.
Import SurfstoreServer.

(** *** Follower.convert_to_candidate, after one election timeout *)
Definition convert_to_candidate (s : t) : t * res bool :=
  match state s with
  | Some (Follower received_reponse) =>
      if lock s then (s, Spin)
      else if negb received_reponse then
        (transit_state (Some CandidateC) s, Ok true)
      else (set_state (Some (Follower false)) s, Ok false)
  | _ => (s, Ok true)
  end.

(** *** Candidate.elect_leader *)

(** The [for server_id, proxy in self.server.proxies.items()] loop:
    [(latest_term, votes)] after the peers [ps]. *)
Fixpoint collect_votes (reply : Z → option (Z * bool)) (ps : list Z)
    (latest_term votes : Z) : Z * Z :=
  match ps with
  | [] => (latest_term, votes)
  | p :: ps' =>
      match reply p with
      | None => collect_votes reply ps' latest_term votes
      | Some (term, vote_granted) =>
          collect_votes reply ps' (Z.max latest_term term)
            (votes + (if vote_granted then 1 else 0))
      end
  end.

(** The request a Candidate sends in its current term. *)
Definition vote_request (s : t) : RequestVoteArgs :=
  mkRV (current_term s) (id s) (Py.len (logs s))
       (Py.last_or fst 0 (logs s)).

(** One round; the result tells whether the loop ends. *)
Definition elect_leader (reply : Z → RequestVoteArgs → option (Z * bool))
    (s : t) : t * res bool :=
  match state s with
  | Some Candidate =>
      if lock s then (s, Spin)
      else
        let s := set_current_term (current_term s + 1) s in
        let s := set_voted_for (Some (id s)) s in
        let '(latest_term, votes) :=
          collect_votes (λ p, reply p (vote_request s)) (proxies s)
            (current_term s) 1 in
        if votes >=? majority s then
          (transit_state (Some LeaderC) s, Ok true)
        else if latest_term >? current_term s then
          (transit_state (Some FollowerC)
             (set_voted_for None (set_current_term latest_term s)), Ok true)
        else (s, Ok false)
  | _ => (s, Ok true)
  end.

(** *** Leader.append_entry *)

(** What the peer loop updates. *)
Record acc := mkAcc {
  next_indexes : gmap Z Z;
  match_indexes : gmap Z Z;
  latest_term : Z;
  n_up : Z;
}.

(** [entries[server_id]], filled from the [next_indexes] the round
    started with. *)
Definition entries_for (logs : list entry) (ni0 : gmap Z Z) (p : Z)
  : option (list entry) :=
  match ni0 !! p with
  | None => None
  | Some next_index =>
      Some (if Py.len logs >=? next_index
            then Py.slice_from logs (next_index - 1) else [])
  end.

(** [self.server.logs[prev_index - 1][0] if prev_index else 0] *)
Definition prev_term_of (logs : list entry) (prev_index : Z) : option Z :=
  if prev_index =? 0 then Some 0 else fst <$> Py.get logs (prev_index - 1).

(** The [for server_id, proxy in self.server.proxies.items()] loop. *)
Fixpoint peers_loop (reply : Z → AppendEntriesArgs → option (Z * bool))
    (s : t) (ni0 : gmap Z Z) (ps : list Z) (a : acc) : acc * res unit :=
  match ps with
  | [] => (a, Ok tt)
  | p :: ps' =>
      match next_indexes a !! p with
      | None => (a, Raise KeyError)
      | Some next_index =>
          let prev_index := next_index - 1 in
          match prev_term_of (logs s) prev_index,
                entries_for (logs s) ni0 p with
          | None, _ => (a, Raise IndexError)
          | _, None => (a, Raise KeyError)
          | Some prev_term, Some entries =>
              match reply p (mkAE (current_term s) prev_index prev_term
                               entries (commit_index s)) with
              | None => peers_loop reply s ni0 ps' a
              | Some (term, successful) =>
                  let lt := Z.max (latest_term a) term in
                  if successful then
                    peers_loop reply s ni0 ps'
                      (mkAcc (<[p := Py.len (logs s) + 1]> (next_indexes a))
                             (<[p := Py.len (logs s)]> (match_indexes a))
                             lt (n_up a + 1))
                  else if negb (term =? -1) then
                    peers_loop reply s ni0 ps'
                      (mkAcc (<[p := next_index - 1]> (next_indexes a))
                             (match_indexes a) lt (n_up a + 1))
                  else
                    peers_loop reply s ni0 ps'
                      (mkAcc (next_indexes a) (match_indexes a) lt (n_up a))
              end
          end
      end
  end.

(** [self.match_indexes.values()] *)
Definition values (m : gmap Z Z) : list Z := (map_to_list m).*2.

(** [max(l)]; [None] is the ValueError on an empty sequence. *)
Definition py_max (l : list Z) : option Z :=
  match l with
  | [] => None
  | x :: l' => Some (foldr Z.max x l')
  end.

(** [reduce(lambda n, match_index: n + (follower_commit <= match_index),
            self.match_indexes.values(), 0)] *)
Definition count_matching (follower_commit : Z) (vals : list Z) : Z :=
  foldl (λ n match_index,
           n + (if follower_commit <=? match_index then 1 else 0)) 0 vals.

(** [for follower_commit in range(max(...), commit_index, -1)], with [n]
    iterations left; gives the new [commit_index]. *)
Fixpoint commit_loop (n : nat) (follower_commit : Z) (vals : list Z)
    (majority : Z) (logs : list entry) (current_term commit_index : Z)
  : res Z :=
  match n with
  | O => Ok commit_index
  | S n' =>
      let num := count_matching follower_commit vals in
      if num >=? majority - 1 then
        match Py.get logs (follower_commit - 1) with
        | None => Raise IndexError
        | Some e =>
            if e.1 =? current_term then Ok follower_commit
            else commit_loop n' (follower_commit - 1) vals majority logs
                   current_term commit_index
        end
      else commit_loop n' (follower_commit - 1) vals majority logs
             current_term commit_index
  end.

(** The commit step of a round, on the updated [match_indexes]. *)
Definition advance_commit (s : t) (mi : gmap Z Z) : res Z :=
  match py_max (values mi) with
  | None => Raise ValueError
  | Some top =>
      commit_loop (Z.to_nat (top - commit_index s)) top (values mi)
        (majority s) (logs s) (current_term s) (commit_index s)
  end.

(** One round.  An exception ends the thread; [with self.server.lock]
    has released the lock and the dictionaries keep what was written. *)
Definition append_entry (reply : Z → AppendEntriesArgs → option (Z * bool))
    (s : t) : t * res bool :=
  match state s with
  | Some (Leader ni mi) =>
      if lock s then (s, Spin)
      else
        match peers_loop reply s ni (proxies s)
                (mkAcc ni mi (current_term s) 1) with
        | (a, Ok _) =>
            let s :=
              set_state (Some (Leader (next_indexes a) (match_indexes a)))
                (set_num_up (n_up a) s) in
            match advance_commit s (match_indexes a) with
            | Ok c =>
                let s := set_commit_index c s in
                if latest_term a >? current_term s then
                  (transit_state (Some FollowerC)
                     (set_current_term (latest_term a) s), Ok true)
                else (s, Ok false)
            | Raise e => (s, Raise e)
            | Spin => (s, Spin)
            end
        | (a, Raise e) =>
            (set_state (Some (Leader (next_indexes a) (match_indexes a))) s,
             Raise e)
        | (a, Spin) => (s, Spin)
        end
  | _ => (s, Ok true)
  end.

End Roles.

(** ** The replica as a transition system *)

(** One step of a replica: an RPC it serves, or one iteration of the loop of
    its current role. *)
Inductive step : SurfstoreServer.t → SurfstoreServer.t → Prop :=
| step_crash s :
    step s (SurfstoreServer.crash s).1
| step_restore s :
    step s (SurfstoreServer.restore s).1
| step_requestVote s term candidate_id log_index log_term :
    step s (SurfstoreServer.requestVote s term candidate_id
              log_index log_term).1
| step_appendEntries s term prev_index prev_term entries leader_commit :
    step s (SurfstoreServer.appendEntries s term prev_index prev_term
              entries leader_commit).1
| step_updatefile_append s filename version blocklist :
    step s (SurfstoreServer.updatefile_append s filename version blocklist).1
| step_updatefile_wait s pending_index filename version blocklist :
    step s (SurfstoreServer.updatefile_wait s pending_index filename
              version blocklist).1
| step_follower s :
    step s (Roles.convert_to_candidate s).1
| step_candidate reply s :
    step s (Roles.elect_leader reply s).1
| step_leader reply s :
    step s (Roles.append_entry reply s).1.

(** ** Notions of the specification *)

Module Spec.
Import SurfstoreServer.

(** ⌈N/2⌉ *)
Definition ceil_half (n : Z) : Z := (n + 1) / 2.

(** "Majority: ⌈N/2⌉+1 replicas." *)
Definition majority (n : Z) : Z := ceil_half n + 1.

(** The number of votes of a Candidate: its own and one for each peer that
    answered with a grant. *)
Definition granted (reply : Z → option (Z * bool)) (p : Z) : bool :=
  match reply p with Some (_, true) => true | _ => false end.

Definition vote_count (reply : Z → option (Z * bool)) (ps : list Z) : Z :=
  1 + Py.len (List.filter (granted reply) ps).

(** The classical reconciliation of the tail of the log with the entries
    sent: walk in parallel; at the first position whose terms differ drop
    the rest of the log and append the entries that remain. *)
Fixpoint walk (existing entries : list entry) {struct entries}
  : list entry :=
  match entries with
  | [] => existing
  | e :: es =>
      match existing with
      | [] => e :: es
      | x :: xs => if x.1 =? e.1 then x :: walk xs es else e :: es
      end
  end.

Definition classical_reconcile (logs : list entry) (prev_index : Z)
    (entries : list entry) : list entry :=
  take (Z.to_nat prev_index) logs
    ++ walk (drop (Z.to_nat prev_index) logs) entries.

(** [prev_index] validates against the log. *)
Definition validates (logs : list entry) (prev_index prev_term : Z) : Prop :=
  0 ≤ prev_index ≤ Py.len logs ∧
  (0 < prev_index →
   ∃ x, logs !! Z.to_nat (prev_index - 1) = Some x ∧ x.1 = prev_term).

(** The number of peers whose match index is at least [M]. *)
Definition peers_matching (mi : gmap Z Z) (M : Z) : Z :=
  Py.len (filter (λ kv : Z * Z, M ≤ kv.2) (map_to_list mi)).


(** LastApplied ≤ CommitIndex ≤ len(Log) *)
Definition index_invariant (s : t) : Prop :=
  last_applied s ≤ commit_index s ≤ Py.len (logs s).

(** The replica is Down. *)
Definition down (s : t) : Prop := is_crashed s = true ∧ state s = None.

(** The term of the last entry of a log, 0 for the empty log. *)
Definition last_term (logs : list entry) : Z :=
  match last logs with Some e => e.1 | None => 0 end.

(** [(t1, i1) ≥ (t2, i2)] in the lexicographic order. *)
Definition lex_ge (t1 i1 t2 i2 : Z) : Prop :=
  t2 < t1 ∨ (t2 = t1 ∧ i2 ≤ i1).

(** VotedFor once a request of term [term] has been observed: a higher
    term clears it. *)
Definition voted_for_in (s : t) (term : Z) : option Z :=
  if decide (current_term s < term) then None else voted_for s.

(** A step that leaves the log and both indexes as they are. *)
Definition same_log_indexes (s s' : t) : Prop :=
  logs s' = logs s ∧ commit_index s' = commit_index s ∧
  last_applied s' = last_applied s.

(** The crashed flag and the absence of a role object go together. *)
Definition down_coherent (s : t) : Prop :=
  is_crashed s = true ↔ state s = None.

End Spec.

(** The states a replica created by [SurfstoreServer(proxies, id, n)] can
    reach. *)
Definition reachable (proxies : list Z) (id n : Z) (s : SurfstoreServer.t)
  : Prop :=
  rtc step (SurfstoreServer.init proxies id n) s.

(** The request of the round a Candidate [s] starts: it is sent in the
    incremented term. *)
Definition round_request (s : SurfstoreServer.t) : RequestVoteArgs :=
  mkRV (SurfstoreServer.current_term s + 1) (SurfstoreServer.id s)
       (Py.len (SurfstoreServer.logs s))
       (Py.last_or fst 0 (SurfstoreServer.logs s)).

(** ** Concrete replicas and requests *)

(** A Candidate of a cluster of three with one grant among its two peers. *)
Definition candidate3 : SurfstoreServer.t :=
  SurfstoreServer.set_state (Some Candidate)
    (SurfstoreServer.set_is_crashed false (SurfstoreServer.init [1; 2] 0 3)).

Definition one_grant (p : Z) (_ : RequestVoteArgs) : option (Z * bool) :=
  if p =? 1 then Some (1, true) else None.

(** A replica of a cluster of three after [restore()]: a Follower in term 0
    with an empty log. *)
Definition follower0 : SurfstoreServer.t :=
  (SurfstoreServer.restore (SurfstoreServer.init [1; 2] 0 3)).1.

Definition entry_a1 : entry := (1, ("a", 1, ["h1"])).
Definition entry_b1 : entry := (1, ("b", 1, ["h2"])).

(** The Follower after the Leader of term 1 has sent it two entries and
    told it that both are committed. *)
Definition follower2 : SurfstoreServer.t :=
  (SurfstoreServer.appendEntries follower0 1 0 0 [entry_a1; entry_b1] 2).1.

(** Every peer answers the Leader of term 1 with success. *)
Definition all_ok (_ : Z) (_ : AppendEntriesArgs) : option (Z * bool) :=
  Some (1, true).

(** [updatefile] with one round of the Leader's loop between the append and
    the wait. *)
Definition updatefile_run (reply : Z → AppendEntriesArgs → option (Z * bool))
    (s : SurfstoreServer.t) (filename : string) (version : Z)
    (blocklist : list hash) : SurfstoreServer.t * res bool :=
  match SurfstoreServer.updatefile_append s filename version blocklist with
  | (s1, Ok pending_index) =>
      SurfstoreServer.updatefile_wait (Roles.append_entry reply s1).1
        pending_index filename version blocklist
  | (s1, Raise e) => (s1, Raise e)
  | (s1, Spin) => (s1, Spin)
  end.

(** The Leader of term 1 elected in the cluster of three, then with one
    entry appended by a client, then after ["a"] has been written. *)
Definition leader3 : SurfstoreServer.t :=
  (Roles.elect_leader one_grant candidate3).1.

Definition leader3_pending : SurfstoreServer.t :=
  (SurfstoreServer.updatefile_append leader3 "a" 1 ["h1"]).1.

Definition leader3_a1 : SurfstoreServer.t :=
  (updatefile_run all_ok leader3 "a" 1 ["h1"]).1.

(** The Follower after it has granted its vote of term 1 to candidate 7. *)
Definition follower_voted : SurfstoreServer.t :=
  (SurfstoreServer.requestVote follower0 1 7 0 0).1.

(** An entry that creates the file ["x"] at version 5. *)
Definition entry_x5 : entry := (1, ("x", 5, ["h1"])).

(** The Follower holding two entries of which none is committed yet. *)
Definition follower_logged : SurfstoreServer.t :=
  (SurfstoreServer.appendEntries follower0 1 0 0 [entry_a1; entry_b1] 0).1.

(** ** One peer in a round of the Leader *)

Module Round.
Import SurfstoreServer.

(** The request [Leader.append_entry] sends to peer [p] in a round that
    starts with the next indexes [ni] (state.py 126-135); [None] when
    building it raises. *)
Definition request_to (s : t) (ni : gmap Z Z) (p : Z)
  : option AppendEntriesArgs :=
  match ni !! p with
  | None => None
  | Some next_index =>
      match Roles.prev_term_of (logs s) (next_index - 1),
            Roles.entries_for (logs s) ni p with
      | Some prev_term, Some entries =>
          Some (mkAE (current_term s) (next_index - 1) prev_term entries
                  (commit_index s))
      | _, _ => None
      end
  end.

(** What peer [p] answers to it; [None] is a call that timed out. *)
Definition answer_of (reply : Z → AppendEntriesArgs → option (Z * bool))
    (s : t) (ni : gmap Z Z) (p : Z) : option (Z * bool) :=
  match request_to s ni p with
  | Some args => reply p args
  | None => None
  end.

(** The answers that add one to [num_up]: a success, or a failure whose
    term is not -1 (state.py 140-146). *)
Definition answered (reply : Z → AppendEntriesArgs → option (Z * bool))
    (s : t) (ni : gmap Z Z) (p : Z) : bool :=
  match answer_of reply s ni p with
  | Some (term, successful) => successful || negb (term =? -1)
  | None => false
  end.

End Round.

(** ** surfstore.py: the block store *)

Abbreviation bytes := (list Byte.byte).
Abbreviation blocks_t := (gmap hash bytes).

Module Blocks.
Section sha256.
(** [sha256(b).digest()] *)
Variable sha256 : bytes → hash.

(** [getblock]: the block, or the AssertionError of "Can only get existing
    blocks". *)
Definition getblock (blocks : blocks_t) (h : hash) : res bytes :=
  match blocks !! h with
  | Some b => Ok b
  | None => Raise AssertionError
  end.

(** [putblock]: an empty block fails the assertion. *)
Definition putblock (blocks : blocks_t) (b : bytes) : blocks_t * res bool :=
  if negb (Py.len b >? 0) then (blocks, Raise AssertionError)
  else (<[sha256 b := b]> blocks, Ok true).

(** [hasblocks]: [[h for h in blocklist if h in self.blocks]] *)
Definition hasblocks (blocks : blocks_t) (blocklist : list hash)
  : list hash :=
  filter (λ h, is_Some (blocks !! h)) blocklist.

End sha256.
End Blocks.

(** ** surfstore.py: a sequence of [updatefile] calls *)

Module Calls.

(** The version a store holds for [name], 0 for a name it does not hold
    (the default the client reads with, [get(file_name, [0, []])]). *)
Definition version_of (file_infos : file_infos_t) (name : string) : Z :=
  match file_infos !! name with Some (v, _) => v | None => 0 end.

(** The calls [updatefile( *c)] for [c] in [calls], one after the other:
    the store at the end and what each call gave.  A call that raises
    leaves the store to the next call as it was. *)
Fixpoint updatefiles (calls : list cmd) (file_infos : file_infos_t)
  : file_infos_t * list (res bool) :=
  match calls with
  | [] => (file_infos, [])
  | (filename, version, blocklist) :: rest =>
      let '(fi, r) :=
        SurfStore.updatefile file_infos filename version blocklist in
      let '(fi', rs) := updatefiles rest fi in
      (fi', r :: rs)
  end.

(** The calls for [name] that returned true. *)
Definition accepted (name : string) (calls : list cmd)
    (results : list (res bool)) : Z :=
  Py.len (List.filter
            (λ cr : cmd * res bool,
               bool_decide (cr.1.1.1 = name)
               && match cr.2 with Ok true => true | _ => false end)
            (zip calls results)).

End Calls.

(** ** server.py: [set_up_connections] *)

Module Connections.
Section resolver.
(** [socket.gethostbyname] *)
Variable gethostbyname : string → string.

(** The proxies dictionary as the list of its items, in insertion order:
    every server of the list but the one numbered [id], under its number,
    with the address its proxy connects to. *)
Definition set_up_connections (server_list : list (string * Z)) (id : Z)
  : list (Z * (string * Z)) :=
  filter (λ kv : Z * (string * Z), kv.1 ≠ id)
    (imap (λ i (hp : string * Z), (Z.of_nat i, (gethostbyname hp.1, hp.2)))
       server_list).

End resolver.
End Connections.

(** ** client.py *)

Module SurfstoreClient.
Section sha256.
Variable sha256 : bytes → hash.





(** The server the client talks to: an object with the methods of
    SurfStore. *)
Record server := mkServer {
  blocks : blocks_t;
  file_infos : file_infos_t;
}.



(** [delete]: the answer of the server is dropped. *)
Definition delete (srv : server) (file_name : string) (version : Z)
  : server * res unit :=
  match SurfStore.updatefile (file_infos srv) file_name version [] with
  | (fi, Ok _) => (mkServer (blocks srv) fi, Ok tt)
  | (fi, Raise e) => (mkServer (blocks srv) fi, Raise e)
  | (fi, Spin) => (mkServer (blocks srv) fi, Spin)
  end.







End sha256.
End SurfstoreClient.

(** A block store is content-addressed when every block sits under its own
    hash and none is empty. *)
Definition addressed (sha256 : bytes → hash) (blocks : blocks_t) : Prop :=
  ∀ h b, blocks !! h = Some b → sha256 b = h ∧ b ≠ [].





(** No peer answers: every call times out. *)
Definition no_answer (_ : Z) (_ : AppendEntriesArgs) : option (Z * bool) :=
  None.

Definition no_vote_answer (_ : Z) (_ : RequestVoteArgs)
  : option (Z * bool) := None.

(** The peer answered the RequestVote at all. *)
Definition answers (reply : Z → option (Z * bool)) (p : Z) : bool :=
  match reply p with Some _ => true | None => false end.

(** * Properties *)

(** ** FileInfoStore *)

Section updatefile.
Variable file_infos : file_infos_t.
Variables (name : string) (version : Z) (blocklist : list hash).

Lemma updatefile_conflict v bl :
  file_infos !! name = Some (v, bl) → version ≠ v + 1 →
  SurfStore.updatefile file_infos name version blocklist
  = (file_infos, Ok false).
Proof.
  intros Hl Hv. unfold SurfStore.updatefile. rewrite Hl.
  destruct (Z.eqb_spec version (v + 1)); [lia | done].
Qed.

Lemma updatefile_next v bl :
  file_infos !! name = Some (v, bl) → version = v + 1 →
  SurfStore.updatefile file_infos name version blocklist
  = (<[name := (version, blocklist)]> file_infos, Ok true).
Proof.
  intros Hl ->. unfold SurfStore.updatefile. rewrite Hl.
  by rewrite Z.eqb_refl.
Qed.

Lemma updatefile_create :
  file_infos !! name = None → version = 1 →
  SurfStore.updatefile file_infos name version blocklist
  = (<[name := (version, blocklist)]> file_infos, Ok true).
Proof. intros Hl ->. unfold SurfStore.updatefile. by rewrite Hl. Qed.

Lemma updatefile_fatal :
  file_infos !! name = None → version ≠ 1 →
  SurfStore.updatefile file_infos name version blocklist
  = (file_infos, Raise AssertionError).
Proof.
  intros Hl Hv. unfold SurfStore.updatefile. rewrite Hl.
  destruct (Z.eqb_spec version 1); [lia | done].
Qed.

(** The four cases are all there is: what the call gives is decided by
    the entry of [name] and [version]. *)
Lemma updatefile_result fi' r :
  SurfStore.updatefile file_infos name version blocklist = (fi', r) →
  (r = Ok true ∧ fi' = <[name := (version, blocklist)]> file_infos) ∨
  (r = Ok false ∧ fi' = file_infos) ∨
  (r = Raise AssertionError ∧ fi' = file_infos).
Proof.
  unfold SurfStore.updatefile.
  destruct (file_infos !! name) as [[v bl]|];
    [destruct (version =? v + 1) | destruct (version =? 1)]; simpl;
    intros [= <- <-]; auto.
Qed.
End updatefile.

(** C5: [updateFile(name, version, blockHashList)] on a store where [name]
    has version [v] and [version ≠ v+1] returns false and leaves the map
    unchanged; where [name] has version [v] and [version = v+1], or [name]
    is absent and [version = 1], it binds [name] to
    [(version, blockHashList)] and returns true; where [name] is absent and
    [version ≠ 1] it does not return a boolean but fails (the assertion),
    the map unchanged. *)
Theorem C5_updatefile_cases (file_infos : file_infos_t) (name : string)
    (version : Z) (blocklist : list hash) :
  let r := SurfStore.updatefile file_infos name version blocklist in
  (∀ v bl, file_infos !! name = Some (v, bl) → version ≠ v + 1 →
     r = (file_infos, Ok false)) ∧
  (∀ v bl, file_infos !! name = Some (v, bl) → version = v + 1 →
     r = (<[name := (version, blocklist)]> file_infos, Ok true)) ∧
  (file_infos !! name = None → version = 1 →
     r = (<[name := (version, blocklist)]> file_infos, Ok true)) ∧
  (file_infos !! name = None → version ≠ 1 →
     r = (file_infos, Raise AssertionError)).
Proof.
  cbv zeta. split_and!.
  - apply updatefile_conflict.
  - apply updatefile_next.
  - apply updatefile_create.
  - apply updatefile_fatal.
Qed.

Lemma C5_updatefile_cases_witness :
  SurfStore.updatefile {["a" := (1, ["h1"])]} "a" 3 ["h2"]
  = ({["a" := (1, ["h1"])]}, Ok false) ∧
  SurfStore.updatefile {["a" := (1, ["h1"])]} "a" 2 ["h2"]
  = (<["a" := (2, ["h2"])]> {["a" := (1, ["h1"])]}, Ok true) ∧
  SurfStore.updatefile ∅ "a" 1 ["h1"] = (<["a" := (1, ["h1"])]> ∅, Ok true) ∧
  SurfStore.updatefile ∅ "a" 2 ["h1"] = (∅, Raise AssertionError).
Proof.
  split_and!.
  - apply (proj1 (C5_updatefile_cases {["a" := (1, ["h1"])]} "a" 3 ["h2"])
             1 ["h1"]); [reflexivity | lia].
  - apply (proj1 (proj2
             (C5_updatefile_cases {["a" := (1, ["h1"])]} "a" 2 ["h2"]))
             1 ["h1"]); [reflexivity | lia].
  - apply (proj1 (proj2 (proj2 (C5_updatefile_cases ∅ "a" 1 ["h1"]))));
      reflexivity.
  - apply (proj2 (proj2 (proj2 (C5_updatefile_cases ∅ "a" 2 ["h1"]))));
      [reflexivity | lia].
Defined.

(** ** Majority and election *)

(** [ceil_half n] is the least integer [c] with [n ≤ 2c]. *)
Lemma ceil_half_least (n : Z) :
  n ≤ 2 * Spec.ceil_half n ∧ ∀ c, n ≤ 2 * c → Spec.ceil_half n ≤ c.
Proof.
  unfold Spec.ceil_half. split.
  - Z.div_mod_to_equations. lia.
  - intros c Hc. Z.div_mod_to_equations. lia.
Qed.

(** The threshold of the code against the one of the specification: they
    agree on even cluster sizes only. *)
Lemma majority_vs_ceiling (s : SurfstoreServer.t) :
  SurfstoreServer.majority s = Spec.majority (SurfstoreServer.num_servers s)
  ↔ SurfstoreServer.num_servers s `mod` 2 = 0.
Proof.
  unfold SurfstoreServer.majority, Spec.majority, Spec.ceil_half.
  generalize (SurfstoreServer.num_servers s). intros n.
  Z.div_mod_to_equations. lia.
Qed.

Lemma collect_votes_votes reply ps latest_term votes :
  (Roles.collect_votes reply ps latest_term votes).2
  = votes + Py.len (List.filter (Spec.granted reply) ps).
Proof.
  revert latest_term votes.
  induction ps as [|p ps IH]; intros latest_term votes; simpl.
  - unfold Py.len. simpl. lia.
  - unfold Spec.granted at 1.
    destruct (reply p) as [[term [|]]|]; rewrite IH; unfold Py.len; simpl; lia.
Qed.

(** C1 (as amended): the threshold of the consensus core is ⌊N/2⌋+1, and a
    Candidate whose round runs becomes Leader exactly when its votes, its
    own included, reach ⌊N/2⌋+1. *)
Theorem C1_majority_floor (s : SurfstoreServer.t)
    (reply : Z → RequestVoteArgs → option (Z * bool)) :
  SurfstoreServer.state s = Some Candidate →
  SurfstoreServer.lock s = false →
  SurfstoreServer.majority s = SurfstoreServer.num_servers s / 2 + 1 ∧
  (SurfstoreServer.isLeader (Roles.elect_leader reply s).1 = true
   ↔ SurfstoreServer.num_servers s / 2 + 1
     ≤ Spec.vote_count (λ p, reply p (round_request s))
         (SurfstoreServer.proxies s)).
Proof.
  intros Hst Hlock. split; [done|].
  unfold Roles.elect_leader. rewrite Hst, Hlock.
  match goal with
  | |- context [Roles.collect_votes ?f ?ps ?l ?v] =>
      pose proof (collect_votes_votes f ps l v) as Hv;
      destruct (Roles.collect_votes f ps l v) as [latest votes]
  end.
  simpl in Hv. unfold Spec.vote_count.
  change (Roles.vote_request _) with (round_request s) in Hv.
  rewrite <- Hv.
  change (SurfstoreServer.majority _)
    with (SurfstoreServer.num_servers s / 2 + 1).
  destruct (Z.geb_spec votes (SurfstoreServer.num_servers s / 2 + 1)).
  - simpl. split; [lia | done].
  - destruct (_ >? _); unfold SurfstoreServer.isLeader; simpl;
      rewrite ?Hst; split; intros; (done || lia).
Qed.

Lemma C1_majority_floor_witness :
  SurfstoreServer.majority candidate3 = 2 ∧
  SurfstoreServer.isLeader (Roles.elect_leader one_grant candidate3).1 = true.
Proof.
  destruct (C1_majority_floor candidate3 one_grant eq_refl eq_refl)
    as [Hm Hl].
  split; [exact Hm|]. apply Hl. vm_compute. discriminate.
Defined.

(** In a cluster of three the code asks for two votes where ⌈3/2⌉+1 is
    three: the Candidate with two votes becomes Leader. *)
Lemma C1_counterexample :
  SurfstoreServer.majority candidate3 = 2 ∧
  Spec.majority (SurfstoreServer.num_servers candidate3) = 3 ∧
  Spec.vote_count (λ p, one_grant p (round_request candidate3))
    (SurfstoreServer.proxies candidate3) = 2 ∧
  SurfstoreServer.isLeader (Roles.elect_leader one_grant candidate3).1 = true.
Proof. vm_compute. done. Qed.

(** ** The consensus RPCs *)


Lemma get_last {A} (l : list A) : l ≠ [] → Py.get l (-1) = last l.
Proof.
  intros Hl. unfold Py.get, Py.len. simpl.
  destruct l as [|a l]; [done|].
  destruct (Z.ltb_spec (-1 + Z.of_nat (length (a :: l))) 0) as [H|H];
    [simpl in H; lia|].
  rewrite last_lookup. f_equal. simpl. lia.
Qed.

Lemma last_or_last_term (l : list entry) :
  Py.last_or fst 0 l = Spec.last_term l.
Proof.
  unfold Py.last_or, Spec.last_term. destruct l as [|a l]; [done|].
  by rewrite get_last.
Qed.

Lemma pair_le_lex (t2 i2 t1 i1 : Z) :
  Py.pair_le (t2, i2) (t1, i1) = true ↔ Spec.lex_ge t1 i1 t2 i2.
Proof.
  unfold Py.pair_le, Spec.lex_ge. simpl.
  rewrite orb_true_iff, andb_true_iff, Z.ltb_lt, Z.eqb_eq, Z.leb_le. done.
Qed.

Lemma check_term_same (term : Z) (s : SurfstoreServer.t) :
  Spec.same_log_indexes s (SurfstoreServer.check_term term s).1.
Proof.
  unfold SurfstoreServer.check_term.
  destruct (_ <? _); [done|]. destruct (_ >? _); done.
Qed.

(** What [__check_term] does with a term that is not behind. *)
Lemma check_term_pass (term : Z) (s : SurfstoreServer.t) :
  SurfstoreServer.current_term s ≤ term →
  ∃ s', SurfstoreServer.check_term term s = (s', true) ∧
        SurfstoreServer.current_term s' = term ∧
        SurfstoreServer.voted_for s' = Spec.voted_for_in s term ∧
        SurfstoreServer.logs s' = SurfstoreServer.logs s ∧
        SurfstoreServer.lock s' = SurfstoreServer.lock s ∧
        SurfstoreServer.commit_index s' = SurfstoreServer.commit_index s ∧
        SurfstoreServer.last_applied s' = SurfstoreServer.last_applied s ∧
        SurfstoreServer.file_infos s' = SurfstoreServer.file_infos s.
Proof.
  intros Hle. unfold SurfstoreServer.check_term, Spec.voted_for_in.
  destruct (Z.ltb_spec term (SurfstoreServer.current_term s)); [lia|].
  destruct (Z.gtb_spec term (SurfstoreServer.current_term s)).
  - eexists; split; [done|]. simpl. rewrite decide_True by lia. done.
  - eexists; split; [done|]. rewrite decide_False by lia.
    split_and!; try done. lia.
Qed.

(** C4: a RequestVote whose term is not behind, on a receiver that is up
    and whose lock is free.  The vote is granted iff VotedFor (after the
    term has been adopted) is null or the candidate, and the candidate's
    (last term, last index) is at least the receiver's in the
    lexicographic order; a grant records the candidate in VotedFor; the
    first component of the reply is the receiver's current term after the
    call. *)
Theorem C4_requestVote_grant (s : SurfstoreServer.t) (st : State)
    (term candidate_id log_index log_term : Z) :
  SurfstoreServer.lock s = false →
  SurfstoreServer.is_crashed s = false →
  SurfstoreServer.state s = Some st →
  SurfstoreServer.current_term s ≤ term →
  ∃ s' vote_granted,
    SurfstoreServer.requestVote s term candidate_id log_index log_term
    = (s', Ok (SurfstoreServer.current_term s', vote_granted)) ∧
    SurfstoreServer.current_term s'
    = Z.max (SurfstoreServer.current_term s) term ∧
    (vote_granted = true ↔
       (Spec.voted_for_in s term = None ∨
        Spec.voted_for_in s term = Some candidate_id) ∧
       Spec.lex_ge log_term log_index
         (Spec.last_term (SurfstoreServer.logs s))
         (Py.len (SurfstoreServer.logs s))) ∧
    SurfstoreServer.voted_for s'
    = (if vote_granted then Some candidate_id
       else Spec.voted_for_in s term).
Proof.
  intros Hlock Hup Hst Hle. unfold SurfstoreServer.requestVote.
  rewrite Hlock. simpl. rewrite Hup, Hst.
  set (s0 := SurfstoreServer.set_state _ _).
  destruct (check_term_pass term s0) as (s1 & -> & Ht & Hv & Hl & _);
    [exact Hle|].
  change (Spec.voted_for_in s0 term) with (Spec.voted_for_in s term) in Hv.
  change (SurfstoreServer.logs s0) with (SurfstoreServer.logs s) in Hl.
  simpl negb. cbv iota.
  set (g := (_ && _)%bool).
  assert (Hg : g = true ↔
            (Spec.voted_for_in s term = None ∨
             Spec.voted_for_in s term = Some candidate_id) ∧
            Spec.lex_ge log_term log_index
              (Spec.last_term (SurfstoreServer.logs s))
              (Py.len (SurfstoreServer.logs s))).
  { subst g. rewrite andb_true_iff. unfold SurfstoreServer.last_log.
    rewrite Hl, last_or_last_term, pair_le_lex, Hv.
    destruct (Spec.voted_for_in s term) as [v|].
    - rewrite Z.eqb_eq. intuition congruence.
    - intuition. }
  exists (SurfstoreServer.set_lock false
            (if g then SurfstoreServer.set_voted_for (Some candidate_id) s1
             else s1)), g.
  destruct g; simpl; rewrite ?Ht, ?Hv; split_and!; try done; lia.
Qed.

Lemma C4_requestVote_grant_witness :
  ∃ s' vote_granted,
    SurfstoreServer.requestVote candidate3 5 7 0 0
    = (s', Ok (SurfstoreServer.current_term s', vote_granted)) ∧
    SurfstoreServer.current_term s' = 5 ∧
    vote_granted = true ∧
    SurfstoreServer.voted_for s' = Some 7.
Proof.
  destruct (C4_requestVote_grant candidate3 Candidate 5 7 0 0
              eq_refl eq_refl eq_refl ltac:(vm_compute; discriminate))
    as (s' & g & Hr & Ht & Hg & Hv).
  exists s', g. split; [exact Hr|]. split; [exact Ht|].
  assert (g = true) as ->.
  { apply Hg. vm_compute. split; [left; reflexivity | right; split; [reflexivity | discriminate]]. }
  split; [reflexivity | exact Hv].
Defined.



(** *** The log-consistency check of AppendEntries *)

(** The mismatch of the specification, for a positive [prev_index], is the
    condition the handler evaluates. *)
Lemma mismatch_true (logs : list entry) (prev_index prev_term : Z) :
  0 < prev_index →
  (Py.len logs < prev_index ∨
   ∃ x, logs !! Z.to_nat (prev_index - 1) = Some x ∧ x.1 ≠ prev_term) →
  SurfstoreServer.mismatch logs prev_index prev_term = Some true.
Proof.
  intros Hpos H. unfold SurfstoreServer.mismatch.
  destruct (Z.ltb_spec (Py.len logs) prev_index) as [|Hlen]; [done|].
  destruct H as [H | (x & Hx & Hne)]; [lia|].
  destruct (Z.gtb_spec prev_index 0); [|lia].
  unfold Py.get. destruct (Z.ltb_spec (prev_index - 1) 0); [lia|].
  rewrite Hx. simpl. destruct (Z.eqb_spec x.1 prev_term); done.
Qed.

(** A heartbeat never touches the log. *)
Lemma commit_and_apply_logs (s : SurfstoreServer.t) (leader_commit : Z) :
  SurfstoreServer.logs (SurfstoreServer.commit_and_apply s leader_commit).1
  = SurfstoreServer.logs s.
Proof.
  unfold SurfstoreServer.commit_and_apply.
  destruct (leader_commit >? _); simpl;
    (destruct (_ >? _); [|done]);
    destruct (SurfstoreServer.apply_loop _ _ _ _) as [fi [[]| |]]; done.
Qed.

Lemma commit_and_apply_reply (s : SurfstoreServer.t) (leader_commit : Z) :
  let r := SurfstoreServer.commit_and_apply s leader_commit in
  r.2 = Ok (SurfstoreServer.current_term r.1, true) ∨ ∃ e, r.2 = Raise e.
Proof.
  cbv zeta. unfold SurfstoreServer.commit_and_apply.
  assert (Hloop : ∀ n idx l fi,
             (SurfstoreServer.apply_loop n idx l fi).2 ≠ Spin).
  { induction n as [|n IH]; intros idx l fi; simpl; [done|].
    destruct (Py.get l idx) as [[tm [[f v] b]]|]; [|done]. simpl.
    destruct (SurfStore.updatefile fi f v b) as [fi' [| |]]; try done;
      apply IH. }
  destruct (leader_commit >? _); simpl;
    (destruct (_ >? _); [|by left]);
    match goal with
    | |- context [SurfstoreServer.apply_loop ?n ?i ?l ?f] =>
        pose proof (Hloop n i l f);
        destruct (SurfstoreServer.apply_loop n i l f) as [fi [[]| |]]
    end; simpl in *; eauto; done.
Qed.

(** C2 (as amended): an AppendEntries whose term passes the term check,
    with [prev_index > 0] and a log that is too short or holds another term
    at [prev_index].  With a non-empty [entries] the receiver replies
    (current term, false) and leaves its log as it is.  With an empty
    [entries] the check is not made: the log is again left as it is, and the
    call never replies false. *)
Theorem C2_mismatch_reply (s : SurfstoreServer.t) (st : State)
    (term prev_index prev_term : Z) (entries : list entry)
    (leader_commit : Z) :
  SurfstoreServer.lock s = false →
  SurfstoreServer.is_crashed s = false →
  SurfstoreServer.state s = Some st →
  SurfstoreServer.current_term s ≤ term →
  0 < prev_index →
  (Py.len (SurfstoreServer.logs s) < prev_index ∨
   ∃ x, SurfstoreServer.logs s !! Z.to_nat (prev_index - 1) = Some x ∧
        x.1 ≠ prev_term) →
  let r := SurfstoreServer.appendEntries s term prev_index prev_term
             entries leader_commit in
  SurfstoreServer.logs r.1 = SurfstoreServer.logs s ∧
  (entries ≠ [] →
   r.2 = Ok (SurfstoreServer.current_term r.1, false) ∧
   SurfstoreServer.current_term r.1 = term) ∧
  (entries = [] →
   r.2 = Ok (SurfstoreServer.current_term r.1, true) ∨ ∃ e, r.2 = Raise e).
Proof.
  intros Hlock Hup Hst Hle Hpos Hmis. cbv zeta.
  unfold SurfstoreServer.appendEntries.
  rewrite Hlock. simpl. rewrite Hup, Hst.
  set (s0 := SurfstoreServer.set_state _ _).
  destruct (check_term_pass term s0) as (s1 & -> & Ht & _ & Hl & _);
    [exact Hle|].
  change (SurfstoreServer.logs s0) with (SurfstoreServer.logs s) in Hl.
  simpl negb. cbv iota.
  destruct entries as [|e entries].
  - rewrite commit_and_apply_logs. split; [done|].
    split; [done|]. intros _. apply commit_and_apply_reply.
  - rewrite Hl, (mismatch_true _ _ _ Hpos Hmis). simpl. done.
Qed.

Lemma C2_mismatch_reply_witness :
  let r := SurfstoreServer.appendEntries follower0 1 1 1 [entry_a1] 0 in
  SurfstoreServer.logs r.1 = [] ∧
  r.2 = Ok (SurfstoreServer.current_term r.1, false) ∧
  SurfstoreServer.current_term r.1 = 1.
Proof.
  destruct (C2_mismatch_reply follower0 (Follower false) 1 1 1 [entry_a1] 0
              eq_refl eq_refl eq_refl
              ltac:(vm_compute; discriminate) ltac:(lia)
              ltac:(left; vm_compute; reflexivity))
    as (Hl & Hne & _).
  split; [exact Hl|]. apply Hne. discriminate.
Defined.

(** A heartbeat with [prev_index = 1] reaches a Follower whose log is
    empty: the log is too short, and the reply is (1, true). *)
Lemma C2_counterexample :
  0 < 1 ∧
  Py.len (SurfstoreServer.logs follower0) < 1 ∧
  SurfstoreServer.current_term follower0 ≤ 1 ∧
  (SurfstoreServer.appendEntries follower0 1 1 1 [] 0).2 = Ok (1, true).
Proof. vm_compute. repeat split; discriminate. Qed.

(** *** The consensus lock in AppendEntries *)

(** A reply of the tail of the handler comes with the lock released. *)
Lemma commit_and_apply_releases (s s' : SurfstoreServer.t)
    (leader_commit : Z) (r : Z * bool) :
  SurfstoreServer.commit_and_apply s leader_commit = (s', Ok r) →
  SurfstoreServer.lock s' = false.
Proof.
  unfold SurfstoreServer.commit_and_apply.
  destruct (leader_commit >? _); simpl;
    (destruct (_ >? _); [|by intros [= <- _]]);
    destruct (SurfstoreServer.apply_loop _ _ _ _) as [fi [[]| |]];
    by intros [= <- _].
Qed.

(** Of the returns of [appendEntries] that took the lock, the one on the
    log-consistency mismatch is the only one that keeps it. *)
Lemma appendEntries_lock_kept (s s' : SurfstoreServer.t)
    (term prev_index prev_term : Z) (entries : list entry)
    (leader_commit : Z) (r : Z * bool) :
  SurfstoreServer.lock s = false →
  SurfstoreServer.appendEntries s term prev_index prev_term entries
    leader_commit = (s', Ok r) →
  SurfstoreServer.lock s' = true →
  entries ≠ [] ∧
  SurfstoreServer.mismatch (SurfstoreServer.logs s) prev_index prev_term
  = Some true ∧
  r = (SurfstoreServer.current_term s', false).
Proof.
  intros Hlock. unfold SurfstoreServer.appendEntries. rewrite Hlock. simpl.
  destruct (SurfstoreServer.is_crashed s);
    [intros [= <- _]; simpl; done|].
  destruct (SurfstoreServer.state s) as [st|]; [|done].
  match goal with
  | |- context [SurfstoreServer.check_term ?t ?x] =>
      pose proof (check_term_same t x) as (Hl & _);
      destruct (SurfstoreServer.check_term t x) as [s1 ok]
  end.
  simpl in Hl. destruct ok; simpl; [|intros [= <- _]; simpl; done].
  destruct entries as [|e entries].
  - intros Hr Hheld. by rewrite (commit_and_apply_releases _ _ _ _ Hr) in Hheld.
  - rewrite Hl.
    destruct (SurfstoreServer.mismatch _ _ _) as [[|]|]; [| |done].
    + intros [= <- <-] _. done.
    + destruct (SurfstoreServer.conflict_loop _ _ _) as [logs'| |];
        [|done|done].
      intros Hr Hheld.
      by rewrite (commit_and_apply_releases _ _ _ _ Hr) in Hheld.
Qed.

(** C10: the handler returns on the log-consistency mismatch with the lock
    still held.  A Follower with an empty log receives
    [appendEntries(1, 1, 1, [entry], 0)]: the reply is (1, false), the lock
    stays held, and the RequestVote and the AppendEntries that come next
    find it taken and answer (-1, false). *)
Theorem C10_lock_held_after_mismatch :
  let r := SurfstoreServer.appendEntries follower0 1 1 1 [entry_a1] 0 in
  r.2 = Ok (1, false) ∧
  SurfstoreServer.lock r.1 = true ∧
  SurfstoreServer.is_crashed r.1 = false ∧
  (SurfstoreServer.requestVote r.1 2 1 0 0).2 = Ok (-1, false) ∧
  (SurfstoreServer.appendEntries r.1 1 0 0 [entry_a1] 0).2 = Ok (-1, false).
Proof. vm_compute. done. Qed.

(** *** Reconciliation of the log *)

Section reconcile.
Variable logs : list entry.

(** From a position inside the list on, the loop either keeps the log or
    cuts it at a position it has reached. *)
Lemma conflict_loop_cut (entries : list entry) (index : Z) :
  0 ≤ index →
  SurfstoreServer.conflict_loop logs index entries = Ok logs ∨
  ∃ k : nat, (Z.to_nat index ≤ k)%nat ∧
    SurfstoreServer.conflict_loop logs index entries = Ok (take k logs).
Proof.
  revert index. induction entries as [|e entries IH]; intros index Hi;
    simpl; [by left|].
  assert (Hnext : 0 ≤ index + 1) by lia.
  destruct (IH (index + 1) Hnext) as [Hk | (k & Hk & Hr)].
  - destruct (Z.ltb_spec index (Py.len logs)) as [Hlt|]; [|by left].
    unfold Py.get. destruct (Z.ltb_spec index 0); [lia|].
    destruct (logs !! Z.to_nat index) as [x|] eqn:Hx.
    + destruct (x.1 =? e.1); simpl; [by left|].
      right. exists (Z.to_nat index). split; [lia|].
      unfold Py.del_from, Py.slice_start.
      destruct (Z.ltb_spec index 0); [lia|]. by rewrite Z.min_l by lia.
    + apply lookup_ge_None in Hx. unfold Py.len in Hlt. lia.
  - assert (Hcut : ∃ k' : nat, (Z.to_nat index ≤ k')%nat ∧
              SurfstoreServer.conflict_loop logs (index + 1) entries
              = Ok (take k' logs)) by (exists k; split; [lia | done]).
    destruct (Z.ltb_spec index (Py.len logs)) as [Hlt|]; [|by right].
    unfold Py.get. destruct (Z.ltb_spec index 0); [lia|].
    destruct (logs !! Z.to_nat index) as [x|] eqn:Hx.
    + destruct (x.1 =? e.1); simpl; [by right|].
      right. exists (Z.to_nat index). split; [lia|].
      unfold Py.del_from, Py.slice_start.
      destruct (Z.ltb_spec index 0); [lia|]. by rewrite Z.min_l by lia.
    + apply lookup_ge_None in Hx. unfold Py.len in Hlt. lia.
Qed.

(** After the loop the assignment [logs[prev_index:] = entries] decides
    the result alone: the log up to [prev_index], then [entries]. *)
Lemma reconcile_wholesale (prev_index : Z) (entries : list entry) :
  0 ≤ prev_index ≤ Py.len logs →
  SurfstoreServer.reconcile logs prev_index entries
  = Ok (take (Z.to_nat prev_index) logs ++ entries).
Proof.
  intros [H0 Hlen]. unfold SurfstoreServer.reconcile.
  destruct (conflict_loop_cut entries prev_index H0)
    as [-> | (k & Hk & ->)];
    unfold Py.assign_from, Py.slice_start;
    (destruct (Z.ltb_spec prev_index 0); [lia|]).
  - by rewrite Z.min_l by lia.
  - unfold Py.len in *. rewrite length_take.
    rewrite Z.min_l by lia. rewrite take_take. do 3 f_equal. lia.
Qed.
End reconcile.

(** The classical walk gives the entries sent and nothing else when the
    log ends within them or conflicts with them, provided entries of one
    term at one position are the same entry. *)
Lemma walk_entries (existing entries : list entry) :
  (∀ i x e, existing !! i = Some x → entries !! i = Some e →
            x.1 = e.1 → x = e) →
  ((length existing ≤ length entries)%nat ∨
   ∃ i x e, existing !! i = Some x ∧ entries !! i = Some e ∧ x.1 ≠ e.1) →
  Spec.walk existing entries = entries.
Proof.
  revert existing. induction entries as [|e es IH]; intros ex Hsame Hc.
  - destruct Hc as [Hlen | (i & x & e & _ & He & _)]; [|done].
    destruct ex; simpl in *; [done | lia].
  - destruct ex as [|x xs]; simpl; [done|].
    destruct (Z.eqb_spec x.1 e.1) as [Heq|]; [|done].
    rewrite (Hsame 0%nat x e eq_refl eq_refl Heq). f_equal.
    apply IH.
    + intros i x' e' Hx He. exact (Hsame (S i) x' e' Hx He).
    + destruct Hc as [Hlen | (i & x' & e' & Hx & He & Hne)].
      * left. simpl in Hlen. lia.
      * destruct i as [|i]; simpl in *.
        -- congruence.
        -- right. by exists i, x', e'.
Qed.

(** Without a conflict the walk keeps what the log holds beyond the
    entries sent. *)
Lemma walk_keeps_tail (existing entries : list entry) :
  (∀ i x e, existing !! i = Some x → entries !! i = Some e → x = e) →
  (length entries ≤ length existing)%nat →
  Spec.walk existing entries = existing.
Proof.
  revert existing. induction entries as [|e es IH]; intros ex Hsame Hlen;
    [done|].
  destruct ex as [|x xs]; simpl in *; [lia|].
  rewrite <- (Hsame 0%nat x e eq_refl eq_refl), Z.eqb_refl. f_equal.
  apply IH; [|lia]. intros i x' e'. exact (Hsame (S i) x' e').
Qed.

(** The two rules agree on every request that conflicts with the log or
    reaches its end. *)
Lemma reconcile_classical_agree (logs : list entry)
    (prev_index prev_term : Z) (entries : list entry) :
  Spec.validates logs prev_index prev_term →
  (∀ i x e, drop (Z.to_nat prev_index) logs !! i = Some x →
            entries !! i = Some e → x.1 = e.1 → x = e) →
  (Py.len logs ≤ prev_index + Py.len entries ∨
   ∃ i x e, drop (Z.to_nat prev_index) logs !! i = Some x ∧
            entries !! i = Some e ∧ x.1 ≠ e.1) →
  SurfstoreServer.reconcile logs prev_index entries
  = Ok (Spec.classical_reconcile logs prev_index entries).
Proof.
  intros [Hp _] Hsame Hc. rewrite reconcile_wholesale by done.
  unfold Spec.classical_reconcile. rewrite walk_entries; [done | done |].
  destruct Hc as [Hlen|]; [left | by right].
  rewrite length_drop. unfold Py.len in *. lia.
Qed.

(** C8: the log holds two entries of term 1 and the request brings the
    first of them again, [prev_index = 0].  The classical rule finds no
    conflict and keeps both entries; the handler's assignment
    [logs[prev_index:] = entries] leaves the first one only. *)
Theorem C8_wholesale_drops_tail :
  Spec.validates [entry_a1; entry_b1] 0 0 ∧
  Spec.classical_reconcile [entry_a1; entry_b1] 0 [entry_a1]
  = [entry_a1; entry_b1] ∧
  SurfstoreServer.reconcile [entry_a1; entry_b1] 0 [entry_a1]
  = Ok [entry_a1] ∧
  SurfstoreServer.logs follower2 = [entry_a1; entry_b1] ∧
  SurfstoreServer.logs
    (SurfstoreServer.appendEntries follower2 1 0 0 [entry_a1] 0).1
  = [entry_a1].
Proof.
  split; [split; [done | lia]|]. vm_compute. done.
Qed.

(** ** Client operations on the Leader *)

(** C9 (as amended): [updatefile] completes on the Leader and
    [getfileinfomap] then returns a map, no other write in between.  If the
    update returned true the map binds [f] to [(v, B)]; if it returned
    false the map is the one from before the update.  So the map binds [f]
    to [(v, B)] iff the update returned true, provided [f] was not bound to
    [(v, B)] already before the update. *)
Theorem C9_update_then_read (s s' s'' : SurfstoreServer.t)
    (pending_index : Z) (f : string) (v : Z) (B : list hash) (b : bool)
    (m : file_infos_t) :
  SurfstoreServer.updatefile_wait s pending_index f v B = (s', Ok b) →
  SurfstoreServer.file_infos s'' = SurfstoreServer.file_infos s' →
  SurfstoreServer.getfileinfomap s'' = (s'', Ok m) →
  (b = true → m !! f = Some (v, B)) ∧
  (b = false → m = SurfstoreServer.file_infos s) ∧
  (SurfstoreServer.file_infos s !! f ≠ Some (v, B) →
   (m !! f = Some (v, B) ↔ b = true)).
Proof.
  intros Hw Hfi Hg.
  assert (Hm : m = SurfstoreServer.file_infos s').
  { revert Hg. unfold SurfstoreServer.getfileinfomap.
    destruct (_ && _); [done|]. destruct (SurfstoreServer.isLeader s'');
      [|done]. unfold SurfStore.getfileinfomap. congruence. }
  revert Hw. unfold SurfstoreServer.updatefile_wait.
  destruct (_ && _); [done|]. destruct (SurfstoreServer.isLeader s); [|done].
  simpl.
  destruct (SurfStore.updatefile (SurfstoreServer.file_infos s) f v B)
    as [fi r] eqn:Hu.
  intros [= <- ->]. simpl in Hm. subst m.
  destruct (updatefile_result _ _ _ _ _ _ Hu)
    as [[[= ->] ->] | [[[= ->] ->] | [? _]]]; [| |done].
  - rewrite lookup_insert_eq. done.
  - split_and!; [done | done |]. intros Hne. split; [done | done].
Qed.

Lemma C9_update_then_read_witness :
  (SurfstoreServer.getfileinfomap leader3_a1).2
  = Ok (SurfstoreServer.file_infos leader3_a1) ∧
  SurfstoreServer.file_infos leader3_a1 !! "a" = Some (1, ["h1"]).
Proof.
  split; [vm_compute; reflexivity|].
  refine (proj1 (C9_update_then_read
            (Roles.append_entry all_ok leader3_pending).1
            leader3_a1 leader3_a1 1 "a" 1 ["h1"] true
            (SurfstoreServer.file_infos leader3_a1) _ eq_refl _) eq_refl);
    vm_compute; reflexivity.
Defined.

(** The Leader holds ["a"] at version 1 with the block list [["h1"]]; the
    same update is sent again.  It returns false, and the map read next
    binds ["a"] to [(1, ["h1"])] all the same. *)
Lemma C9_counterexample :
  let r := updatefile_run all_ok leader3_a1 "a" 1 ["h1"] in
  r.2 = Ok false ∧
  SurfstoreServer.isLeader r.1 = true ∧
  ∃ m, (SurfstoreServer.getfileinfomap r.1).2 = Ok m ∧
       m !! "a" = Some (1, ["h1"]).
Proof.
  cbv zeta. split; [vm_compute; reflexivity|].
  split; [vm_compute; reflexivity|].
  eexists. split; [vm_compute; reflexivity|]. vm_compute. reflexivity.
Qed.

(** ** The Leader's round *)

Lemma count_matching_filter (M : Z) (l : list (Z * Z)) (acc : Z) :
  foldl (λ n match_index, n + (if M <=? match_index then 1 else 0)) acc (l.*2)
  = acc + Py.len (filter (λ kv : Z * Z, M ≤ kv.2) l).
Proof.
  revert acc. induction l as [|kv l IH]; intros acc; simpl.
  - unfold Py.len. simpl. lia.
  - rewrite IH, filter_cons. unfold Py.len.
    destruct (Z.leb_spec M kv.2); case_decide; simpl; lia.
Qed.

Lemma count_matching_peers (M : Z) (mi : gmap Z Z) :
  Roles.count_matching M (Roles.values mi) = Spec.peers_matching mi M.
Proof.
  unfold Roles.count_matching, Roles.values, Spec.peers_matching.
  rewrite count_matching_filter. lia.
Qed.



Section commit_loop.
Variables (vals : list Z) (majority : Z) (logs : list entry).
Variables (current_term commit_index : Z).


Hypothesis commit_nonneg : 0 ≤ commit_index.

End commit_loop.

Section peers_loop.
Variable reply : Z → AppendEntriesArgs → option (Z * bool).
Variable s : SurfstoreServer.t.
Variable ni0 : gmap Z Z.


End peers_loop.



(** The round of the witness commits the appended entry. *)
Example leader3_commits :
  SurfstoreServer.commit_index (Roles.append_entry all_ok leader3_pending).1
  = 1.
Proof. vm_compute. reflexivity. Qed.

(** ** LastApplied ≤ CommitIndex ≤ len(Log) *)

Lemma same_log_indexes_invariant (s s' : SurfstoreServer.t) :
  Spec.same_log_indexes s s' → Spec.index_invariant s →
  Spec.index_invariant s' ∧
  SurfstoreServer.commit_index s ≤ SurfstoreServer.commit_index s'.
Proof.
  unfold Spec.index_invariant. intros (-> & -> & ->). lia.
Qed.

Lemma requestVote_same (s : SurfstoreServer.t)
    (term candidate_id log_index log_term : Z) :
  Spec.same_log_indexes s
    (SurfstoreServer.requestVote s term candidate_id log_index log_term).1.
Proof.
  unfold SurfstoreServer.requestVote.
  destruct (SurfstoreServer.lock s); [done|]. simpl.
  destruct (SurfstoreServer.is_crashed s); [done|].
  destruct (SurfstoreServer.state s) as [st|]; [|done].
  match goal with
  | |- context [SurfstoreServer.check_term ?t ?x] =>
      pose proof (check_term_same t x) as Hs;
      destruct (SurfstoreServer.check_term t x) as [s1 ok]
  end.
  destruct ok; simpl; [|done]. destruct (_ && _); done.
Qed.

(** The tail of AppendEntries keeps the invariant and never lowers the
    commit index of a replica that satisfies it. *)
Lemma commit_and_apply_invariant (s : SurfstoreServer.t) (leader_commit : Z) :
  Spec.index_invariant s →
  Spec.index_invariant (SurfstoreServer.commit_and_apply s leader_commit).1 ∧
  SurfstoreServer.commit_index s
  ≤ SurfstoreServer.commit_index
      (SurfstoreServer.commit_and_apply s leader_commit).1.
Proof.
  unfold Spec.index_invariant, SurfstoreServer.commit_and_apply.
  intros Hinv.
  destruct (Z.gtb_spec leader_commit (SurfstoreServer.commit_index s)); simpl.
  - destruct (Z.gtb_spec
                (Z.min leader_commit (Py.len (SurfstoreServer.logs s)))
                (SurfstoreServer.last_applied s)); simpl; [|lia].
    destruct (SurfstoreServer.apply_loop _ _ _ _) as [fi [[]| |]]; simpl; lia.
  - destruct (Z.gtb_spec (SurfstoreServer.commit_index s)
                (SurfstoreServer.last_applied s)); simpl; [|lia].
    destruct (SurfstoreServer.apply_loop _ _ _ _) as [fi [[]| |]]; simpl; lia.
Qed.

(** A hit of the Leader's loop lies above the commit index and inside the
    log. *)
Lemma commit_loop_bounds (vals : list Z) (majority : Z) (logs : list entry)
    (current_term commit_index : Z) (n : nat) (top c : Z) :
  (n ≠ O → commit_index ≤ top - Z.of_nat n) →
  Roles.commit_loop n top vals majority logs current_term commit_index
  = Ok c →
  c = commit_index ∨ (commit_index < c ∧ c ≤ Py.len logs).
Proof.
  revert top. induction n as [|n IH]; intros top Htop; simpl.
  - intros [= <-]. by left.
  - assert (Hrec : n ≠ O → commit_index ≤ top - 1 - Z.of_nat n) by lia.
    assert (Hgt : commit_index < top) by lia.
    destruct (_ >=? _); [|by apply IH].
    unfold Py.get.
    destruct (Z.ltb_spec (top - 1) 0) as [Hneg|Hpos].
    + destruct (Z.ltb_spec (top - 1 + Py.len logs) 0); [done|].
      destruct (logs !! _) as [e|]; [|done].
      destruct (_ =? _); [|by apply IH].
      intros [= <-]. right. unfold Py.len in *. lia.
    + destruct (logs !! Z.to_nat (top - 1)) as [e|] eqn:He; [|done].
      destruct (_ =? _); [|by apply IH].
      intros [= <-]. right. apply lookup_lt_Some in He.
      unfold Py.len. lia.
Qed.

Lemma append_entry_invariant reply (s : SurfstoreServer.t) :
  Spec.index_invariant s →
  Spec.index_invariant (Roles.append_entry reply s).1 ∧
  SurfstoreServer.commit_index s
  ≤ SurfstoreServer.commit_index (Roles.append_entry reply s).1.
Proof.
  intros Hinv. unfold Roles.append_entry.
  destruct (SurfstoreServer.state s) as [[| |ni mi]|];
    try (by apply same_log_indexes_invariant).
  destruct (SurfstoreServer.lock s);
    [by apply same_log_indexes_invariant|].
  destruct (Roles.peers_loop _ _ _ _ _) as [a [[]| |]];
    try (by apply same_log_indexes_invariant).
  unfold Roles.advance_commit.
  destruct (Roles.py_max _) as [top|];
    [|by apply same_log_indexes_invariant].
  match goal with
  | |- context [Roles.commit_loop ?n ?t ?v ?m ?l ?ct ?ci] =>
      pose proof (commit_loop_bounds v m l ct ci n t) as Hb;
      destruct (Roles.commit_loop n t v m l ct ci) as [c| |]
  end; try (by apply same_log_indexes_invariant).
  simpl in Hb. unfold Spec.index_invariant in *.
  destruct (Hb c) as [-> | Hc]; [lia | done | |];
    destruct (_ >? _); simpl; lia.
Qed.

(** Every step but one keeps the invariant and never lowers the commit
    index: the exception is a step that leaves the log shorter than the
    commit index. *)
Lemma step_invariant (s s' : SurfstoreServer.t) :
  step s s' →
  Spec.index_invariant s →
  SurfstoreServer.commit_index s ≤ Py.len (SurfstoreServer.logs s') →
  Spec.index_invariant s' ∧
  SurfstoreServer.commit_index s ≤ SurfstoreServer.commit_index s'.
Proof.
  intros Hstep Hinv. destruct Hstep; intros Hlen.
  - apply same_log_indexes_invariant; [|done].
    unfold SurfstoreServer.crash. destruct (SurfstoreServer.lock s); done.
  - apply same_log_indexes_invariant; [|done].
    unfold SurfstoreServer.restore. destruct (SurfstoreServer.lock s); done.
  - apply same_log_indexes_invariant; [apply requestVote_same | done].
  - revert Hlen. unfold SurfstoreServer.appendEntries.
    destruct (SurfstoreServer.lock s);
      [intros; by apply same_log_indexes_invariant|]. simpl.
    destruct (SurfstoreServer.is_crashed s);
      [intros; by apply same_log_indexes_invariant|].
    destruct (SurfstoreServer.state s) as [st|];
      [|intros; by apply same_log_indexes_invariant].
    match goal with
    | |- context [SurfstoreServer.check_term ?t ?x] =>
        pose proof (check_term_same t x) as (Hl & Hc & Ha);
        destruct (SurfstoreServer.check_term t x) as [s1 ok]
    end.
    simpl in Hl, Hc, Ha.
    assert (Hinv1 : Spec.index_invariant s1)
      by (unfold Spec.index_invariant in *; rewrite Hl, Hc, Ha; done).
    destruct ok; simpl;
      [|intros; unfold Spec.index_invariant in *; simpl; lia].
    assert (Hsame : ∀ x : SurfstoreServer.t * res (Z * bool),
              x.1 = s1 →
              Spec.index_invariant x.1 ∧
              SurfstoreServer.commit_index s
              ≤ SurfstoreServer.commit_index x.1)
      by (intros x ->; split; [done | lia]).
    destruct entries as [|e entries].
    + intros _. rewrite <- Hc. by apply commit_and_apply_invariant.
    + destruct (SurfstoreServer.mismatch _ _ _) as [[|]|];
        [by intros; apply Hsame | | by intros; apply Hsame].
      destruct (SurfstoreServer.conflict_loop _ _ _) as [logs'| |];
        [| by intros; apply Hsame | by intros; apply Hsame].
      rewrite commit_and_apply_logs. simpl. intros Hlen.
      destruct (commit_and_apply_invariant
                  (SurfstoreServer.set_logs
                     (Py.assign_from logs' prev_index (e :: entries)) s1)
                  leader_commit) as [H1 H2].
      { unfold Spec.index_invariant in *. simpl. lia. }
      split; [done|]. simpl in H2. lia.
  - clear Hlen. unfold SurfstoreServer.updatefile_append.
    destruct (SurfstoreServer.isLeader s);
      [|by apply same_log_indexes_invariant].
    destruct (SurfstoreServer.lock s);
      [by apply same_log_indexes_invariant|].
    unfold Spec.index_invariant, Py.len in *. simpl.
    rewrite length_app. simpl. lia.
  - clear Hlen. unfold SurfstoreServer.updatefile_wait.
    destruct (SurfstoreServer.isLeader s); simpl;
      [|by apply same_log_indexes_invariant].
    destruct (Z.ltb_spec (SurfstoreServer.commit_index s) pending_index);
      [by apply same_log_indexes_invariant|].
    destruct (SurfStore.updatefile _ _ _ _) as [fi r].
    unfold Spec.index_invariant in *. simpl. lia.
  - apply same_log_indexes_invariant; [|done].
    unfold Roles.convert_to_candidate.
    destruct (SurfstoreServer.state s) as [[[|]| |]|]; try done;
      destruct (SurfstoreServer.lock s); done.
  - apply same_log_indexes_invariant; [|done].
    unfold Roles.elect_leader.
    destruct (SurfstoreServer.state s) as [[| |]|]; try done.
    destruct (SurfstoreServer.lock s); [done|].
    destruct (Roles.collect_votes _ _ _ _) as [lt votes].
    destruct (_ >=? _); [done|]. destruct (_ >? _); done.
  - by apply append_entry_invariant.
Qed.

(** C6: the replica reaches a state with two entries, both committed and
    applied.  An AppendEntries of the same term that brings the first entry
    again leaves one entry in the log under a commit index of 2; the
    heartbeat that follows lowers the commit index to 1, below
    LastApplied. *)
Theorem C6_commit_index_beyond_log :
  reachable [1; 2] 0 3 follower2 ∧
  Spec.index_invariant follower2 ∧
  let s := (SurfstoreServer.appendEntries follower2 1 0 0 [entry_a1] 0).1 in
  step follower2 s ∧
  SurfstoreServer.commit_index s = 2 ∧
  Py.len (SurfstoreServer.logs s) = 1 ∧
  let s' := (SurfstoreServer.appendEntries s 1 1 1 [] 3).1 in
  step s s' ∧
  SurfstoreServer.commit_index s' = 1 ∧
  SurfstoreServer.last_applied s' = 2.
Proof.
  cbv zeta. split_and!.
  - unfold reachable.
    apply (rtc_l _ _ follower0); [apply step_restore|].
    apply (rtc_l _ _ follower2); [|apply rtc_refl].
    apply (step_appendEntries follower0 1 0 0 [entry_a1; entry_b1] 2).
  - vm_compute. split; discriminate.
  - apply step_appendEntries.
  - vm_compute. reflexivity.
  - vm_compute. reflexivity.
  - apply step_appendEntries.
  - vm_compute. reflexivity.
  - vm_compute. reflexivity.
Qed.

(** ** Down is coherent in every reachable state *)

Lemma check_term_presence (term : Z) (s : SurfstoreServer.t) :
  is_Some (SurfstoreServer.state s) →
  SurfstoreServer.is_crashed (SurfstoreServer.check_term term s).1
  = SurfstoreServer.is_crashed s ∧
  is_Some (SurfstoreServer.state (SurfstoreServer.check_term term s).1).
Proof.
  intros Hst. unfold SurfstoreServer.check_term.
  destruct (_ <? _); [done|]. destruct (_ >? _); simpl; [|done].
  split; [done | by eexists].
Qed.

Lemma commit_and_apply_presence (s : SurfstoreServer.t) (leader_commit : Z) :
  SurfstoreServer.is_crashed
    (SurfstoreServer.commit_and_apply s leader_commit).1
  = SurfstoreServer.is_crashed s ∧
  SurfstoreServer.state (SurfstoreServer.commit_and_apply s leader_commit).1
  = SurfstoreServer.state s.
Proof.
  unfold SurfstoreServer.commit_and_apply.
  destruct (leader_commit >? _); simpl;
    (destruct (_ >? _); [|done]);
    destruct (SurfstoreServer.apply_loop _ _ _ _) as [fi [[]| |]]; done.
Qed.

(** A replica that is up and has a role keeps both through a step that
    only replaces the role object. *)
Lemma up_coherent (s : SurfstoreServer.t) :
  SurfstoreServer.is_crashed s = false →
  is_Some (SurfstoreServer.state s) → Spec.down_coherent s.
Proof.
  unfold Spec.down_coherent. intros -> [st ->]. done.
Qed.

Lemma step_coherent (s s' : SurfstoreServer.t) :
  step s s' → Spec.down_coherent s → Spec.down_coherent s'.
Proof.
  intros Hstep Hco.
  assert (Hup : ∀ st, SurfstoreServer.state s = Some st →
                      SurfstoreServer.is_crashed s = false).
  { intros st Hst. destruct (SurfstoreServer.is_crashed s) eqn:Hc; [|done].
    destruct Hco as [Hco _]. rewrite Hco in Hst; done. }
  destruct Hstep.
  - unfold SurfstoreServer.crash. destruct (SurfstoreServer.lock s); done.
  - unfold SurfstoreServer.restore.
    destruct (SurfstoreServer.lock s); done.
  - unfold SurfstoreServer.requestVote.
    destruct (SurfstoreServer.lock s); [done|]. simpl.
    destruct (SurfstoreServer.is_crashed s) eqn:Hc; [done|].
    destruct (SurfstoreServer.state s) as [st|] eqn:Hst; [|done].
    match goal with
    | |- context [SurfstoreServer.check_term ?t ?x] =>
        destruct (check_term_presence t x) as [Hc1 Hs1]; [by eexists|];
        destruct (SurfstoreServer.check_term t x) as [s1 ok]
    end.
    simpl in Hc1, Hs1. rewrite Hc in Hc1.
    destruct ok; simpl; [|by apply up_coherent].
    destruct (_ && _); by apply up_coherent.
  - unfold SurfstoreServer.appendEntries.
    destruct (SurfstoreServer.lock s); [done|]. simpl.
    destruct (SurfstoreServer.is_crashed s) eqn:Hc; [done|].
    destruct (SurfstoreServer.state s) as [st|] eqn:Hst; [|done].
    match goal with
    | |- context [SurfstoreServer.check_term ?t ?x] =>
        destruct (check_term_presence t x) as [Hc1 Hs1]; [by eexists|];
        destruct (SurfstoreServer.check_term t x) as [s1 ok]
    end.
    simpl in Hc1, Hs1. rewrite Hc in Hc1.
    destruct ok; simpl; [|by apply up_coherent].
    destruct entries as [|e entries].
    + destruct (commit_and_apply_presence s1 leader_commit) as [H1 H2].
      apply up_coherent; [by rewrite H1 | by rewrite H2].
    + destruct (SurfstoreServer.mismatch _ _ _) as [[|]|];
        try (by apply up_coherent).
      destruct (SurfstoreServer.conflict_loop _ _ _) as [logs'| |];
        try (by apply up_coherent).
      match goal with
      | |- context [SurfstoreServer.commit_and_apply ?x ?lc] =>
          destruct (commit_and_apply_presence x lc) as [H1 H2]
      end.
      apply up_coherent; [by rewrite H1 | by rewrite H2].
  - unfold SurfstoreServer.updatefile_append.
    destruct (SurfstoreServer.isLeader s); [|done].
    destruct (SurfstoreServer.lock s); done.
  - unfold SurfstoreServer.updatefile_wait.
    destruct (_ && _); [done|].
    destruct (SurfstoreServer.isLeader s); [|done]. simpl.
    destruct (SurfStore.updatefile _ _ _ _). done.
  - unfold Roles.convert_to_candidate.
    destruct (SurfstoreServer.state s) as [[[|]| |]|] eqn:Hst; try done;
      (destruct (SurfstoreServer.lock s); [done|]);
      apply up_coherent; simpl; eauto.
  - unfold Roles.elect_leader.
    destruct (SurfstoreServer.state s) as [[| |]|] eqn:Hst; try done.
    destruct (SurfstoreServer.lock s); [done|].
    destruct (Roles.collect_votes _ _ _ _) as [lt votes].
    destruct (_ >=? _); [apply up_coherent; simpl; eauto|].
    destruct (_ >? _); apply up_coherent; simpl; eauto.
  - unfold Roles.append_entry.
    destruct (SurfstoreServer.state s) as [[| |ni mi]|] eqn:Hst; try done.
    destruct (SurfstoreServer.lock s); [done|].
    destruct (Roles.peers_loop _ _ _ _ _) as [a [[]| |]];
      [| apply up_coherent; simpl; eauto | done].
    destruct (Roles.advance_commit _ _) as [c| |];
      [| apply up_coherent; simpl; eauto..].
    destruct (_ >? _); apply up_coherent; simpl; eauto.
Qed.

(** In every reachable state the replica is crashed exactly when it has no
    role object, so [is_crashed] alone tells that it is Down. *)
Lemma reachable_down (proxies : list Z) (id n : Z) (s : SurfstoreServer.t) :
  reachable proxies id n s →
  SurfstoreServer.is_crashed s = true → Spec.down s.
Proof.
  intros Hr. assert (Hco : Spec.down_coherent s).
  { revert s Hr. unfold reachable. apply rtc_ind_r; [done|].
    intros y z _ Hstep IH. by eapply step_coherent. }
  intros Hc. split; [done | by apply Hco].
Qed.

(** * Further properties of the replica *)

(** ** Terms and votes *)

Lemma check_term_grows (term : Z) (s : SurfstoreServer.t) :
  SurfstoreServer.current_term s
  ≤ SurfstoreServer.current_term (SurfstoreServer.check_term term s).1.
Proof.
  unfold SurfstoreServer.check_term.
  destruct (Z.ltb_spec term (SurfstoreServer.current_term s)); [simpl; lia|].
  destruct (Z.gtb_spec term (SurfstoreServer.current_term s)); simpl; lia.
Qed.

Lemma commit_and_apply_term_vote (s : SurfstoreServer.t) (leader_commit : Z) :
  SurfstoreServer.current_term
    (SurfstoreServer.commit_and_apply s leader_commit).1
  = SurfstoreServer.current_term s ∧
  SurfstoreServer.voted_for
    (SurfstoreServer.commit_and_apply s leader_commit).1
  = SurfstoreServer.voted_for s.
Proof.
  unfold SurfstoreServer.commit_and_apply.
  destruct (leader_commit >? _); simpl;
    (destruct (_ >? _); [|done]);
    destruct (SurfstoreServer.apply_loop _ _ _ _) as [fi [[]| |]]; done.
Qed.

(** The votes a Candidate collects never lower the latest term seen. *)
Lemma collect_votes_latest reply ps latest_term votes :
  latest_term ≤ (Roles.collect_votes reply ps latest_term votes).1.
Proof.
  revert latest_term votes.
  induction ps as [|p ps IH]; intros latest_term votes; simpl; [lia|].
  destruct (reply p) as [[term g]|]; [|apply IH].
  etransitivity; [|apply IH]. lia.
Qed.

(** A vote once recorded stays through [__check_term] unless the term
    grows. *)
Lemma check_term_vote (term : Z) (s : SurfstoreServer.t) :
  SurfstoreServer.current_term (SurfstoreServer.check_term term s).1
  = SurfstoreServer.current_term s →
  SurfstoreServer.voted_for (SurfstoreServer.check_term term s).1
  = SurfstoreServer.voted_for s.
Proof.
  unfold SurfstoreServer.check_term.
  destruct (Z.ltb_spec term (SurfstoreServer.current_term s)); [done|].
  destruct (Z.gtb_spec term (SurfstoreServer.current_term s)); simpl;
    [lia | done].
Qed.

(** One step never lowers the term, and within a term it never replaces a
    recorded vote. *)
Lemma step_term_vote (s s' : SurfstoreServer.t) :
  step s s' →
  SurfstoreServer.current_term s ≤ SurfstoreServer.current_term s' ∧
  (SurfstoreServer.current_term s' = SurfstoreServer.current_term s →
   ∀ v, SurfstoreServer.voted_for s = Some v →
        SurfstoreServer.voted_for s' = Some v).
Proof.
  intros Hstep. destruct Hstep.
  - unfold SurfstoreServer.crash.
    destruct (SurfstoreServer.lock s); simpl; split; (done || lia).
  - unfold SurfstoreServer.restore.
    destruct (SurfstoreServer.lock s); simpl; split; (done || lia).
  - unfold SurfstoreServer.requestVote.
    destruct (SurfstoreServer.lock s); [split; (done || lia)|]. simpl.
    destruct (SurfstoreServer.is_crashed s); [split; (done || lia)|].
    destruct (SurfstoreServer.state s) as [st|]; [|split; (done || lia)].
    match goal with
    | |- context [SurfstoreServer.check_term ?t ?x] =>
        pose proof (check_term_grows t x) as Hg;
        pose proof (check_term_vote t x) as Hv;
        destruct (SurfstoreServer.check_term t x) as [s1 ok]
    end.
    simpl in Hg, Hv.
    destruct ok; simpl; [|split; [done | intros Ht v; rewrite Hv; done]].
    match goal with
    | |- context [if ?g then _ else _] => destruct g eqn:Hgrant
    end; simpl; (split; [done|]); intros Ht v Hvs;
      rewrite <- Hv in Hvs by done; [|done].
    rewrite Hvs in Hgrant. apply andb_true_iff in Hgrant as [Hw _].
    apply Z.eqb_eq in Hw. by subst.
  - unfold SurfstoreServer.appendEntries.
    destruct (SurfstoreServer.lock s); [split; (done || lia)|]. simpl.
    destruct (SurfstoreServer.is_crashed s); [split; (done || lia)|].
    destruct (SurfstoreServer.state s) as [st|]; [|split; (done || lia)].
    match goal with
    | |- context [SurfstoreServer.check_term ?t ?x] =>
        pose proof (check_term_grows t x) as Hg;
        pose proof (check_term_vote t x) as Hv;
        destruct (SurfstoreServer.check_term t x) as [s1 ok]
    end.
    simpl in Hg, Hv.
    assert (Hs1 : ∀ x : SurfstoreServer.t,
      SurfstoreServer.current_term x = SurfstoreServer.current_term s1 →
      SurfstoreServer.voted_for x = SurfstoreServer.voted_for s1 →
      SurfstoreServer.current_term s ≤ SurfstoreServer.current_term x ∧
      (SurfstoreServer.current_term x = SurfstoreServer.current_term s →
       ∀ v, SurfstoreServer.voted_for s = Some v →
            SurfstoreServer.voted_for x = Some v)).
    { intros x Ht Hvx. rewrite Ht, Hvx. split; [done|].
      intros Heq v. by rewrite Hv. }
    destruct ok; simpl; [|by apply Hs1].
    destruct entries as [|e entries].
    + destruct (commit_and_apply_term_vote s1 leader_commit). by apply Hs1.
    + destruct (SurfstoreServer.mismatch _ _ _) as [[|]|];
        try (by apply Hs1).
      destruct (SurfstoreServer.conflict_loop _ _ _) as [logs'| |];
        try (by apply Hs1).
      match goal with
      | |- context [SurfstoreServer.commit_and_apply ?x ?lc] =>
          destruct (commit_and_apply_term_vote x lc)
      end.
      by apply Hs1.
  - unfold SurfstoreServer.updatefile_append.
    destruct (SurfstoreServer.isLeader s); [|split; (done || lia)].
    destruct (SurfstoreServer.lock s); simpl; split; (done || lia).
  - unfold SurfstoreServer.updatefile_wait.
    destruct (_ && _); [split; (done || lia)|].
    destruct (SurfstoreServer.isLeader s); [|split; (done || lia)]. simpl.
    destruct (SurfStore.updatefile _ _ _ _). simpl. split; (done || lia).
  - unfold Roles.convert_to_candidate.
    destruct (SurfstoreServer.state s) as [[[|]| |]|];
      try (split; (done || lia));
      destruct (SurfstoreServer.lock s); simpl; split; (done || lia).
  - unfold Roles.elect_leader.
    destruct (SurfstoreServer.state s) as [[| |]|];
      try (split; (done || lia)).
    destruct (SurfstoreServer.lock s); [split; (done || lia)|].
    match goal with
    | |- context [Roles.collect_votes ?f ?ps ?l ?v] =>
        pose proof (collect_votes_latest f ps l v) as Hl;
        destruct (Roles.collect_votes f ps l v) as [lt votes]
    end.
    simpl in Hl.
    destruct (_ >=? _); [simpl; split; [lia | intros; lia]|].
    simpl.
    destruct (Z.gtb_spec lt (SurfstoreServer.current_term s + 1));
      simpl; (split; [lia | intros; lia]).
  - unfold Roles.append_entry.
    destruct (SurfstoreServer.state s) as [[| |ni mi]|];
      try (split; (done || lia)).
    destruct (SurfstoreServer.lock s); [split; (done || lia)|].
    destruct (Roles.peers_loop _ _ _ _ _) as [a [[]| |]];
      try (simpl; split; (done || lia)).
    destruct (Roles.advance_commit _ _) as [c| |];
      try (simpl; split; (done || lia)).
    simpl.
    destruct (Z.gtb_spec (Roles.latest_term a) (SurfstoreServer.current_term s));
      simpl; (split; [lia | intros; (done || lia)]).
Qed.

Lemma run_term_le (s s' : SurfstoreServer.t) :
  rtc step s s' →
  SurfstoreServer.current_term s ≤ SurfstoreServer.current_term s'.
Proof.
  induction 1 as [|x y z Hxy _ IH]; [done|].
  destruct (step_term_vote x y Hxy). lia.
Qed.

(** X1: along every run of a replica the term never decreases. *)
Theorem run_term_monotone (s s' : SurfstoreServer.t) :
  rtc step s s' →
  SurfstoreServer.current_term s ≤ SurfstoreServer.current_term s'.
Proof. apply run_term_le. Qed.

Lemma run_term_monotone_witness :
  SurfstoreServer.current_term follower0
  ≤ SurfstoreServer.current_term follower2.
Proof.
  apply run_term_monotone.
  apply (rtc_once _ _ (step_appendEntries follower0 1 0 0
                         [entry_a1; entry_b1] 2)).
Defined.

(** X2: a replica that has recorded a vote and is still in the same term
    at the end of a run holds the same vote: it never votes for a second
    candidate in one term. *)
Theorem run_one_vote_per_term (s s' : SurfstoreServer.t) (v : Z) :
  rtc step s s' →
  SurfstoreServer.current_term s' = SurfstoreServer.current_term s →
  SurfstoreServer.voted_for s = Some v →
  SurfstoreServer.voted_for s' = Some v.
Proof.
  induction 1 as [|x y z Hxy Hyz IH]; [done|]. intros Ht Hv.
  destruct (step_term_vote x y Hxy) as [Hle Hkeep].
  pose proof (run_term_le y z Hyz).
  apply IH; [lia|]. apply Hkeep; [lia | done].
Qed.

Lemma run_one_vote_per_term_witness :
  SurfstoreServer.voted_for follower_voted = Some 7 ∧
  SurfstoreServer.voted_for
    (SurfstoreServer.requestVote follower_voted 1 8 0 0).1 = Some 7.
Proof.
  split; [reflexivity|].
  apply (run_one_vote_per_term follower_voted
           (SurfstoreServer.requestVote follower_voted 1 8 0 0).1 7);
    [| reflexivity | reflexivity].
  apply (rtc_once _ _ (step_requestVote follower_voted 1 8 0 0)).
Defined.

Lemma check_term_pass_files (term : Z) (s : SurfstoreServer.t) :
  SurfstoreServer.file_infos (SurfstoreServer.check_term term s).1
  = SurfstoreServer.file_infos s.
Proof.
  unfold SurfstoreServer.check_term.
  destruct (_ <? _); [done|]. destruct (_ >? _); done.
Qed.

Lemma check_term_pass_lock (term : Z) (s : SurfstoreServer.t) :
  SurfstoreServer.lock (SurfstoreServer.check_term term s).1
  = SurfstoreServer.lock s.
Proof.
  unfold SurfstoreServer.check_term.
  destruct (_ <? _); [done|]. destruct (_ >? _); done.
Qed.

(** ** The consensus lock *)

Lemma step_lock_held (s s' : SurfstoreServer.t) :
  step s s' → SurfstoreServer.lock s = true →
  SurfstoreServer.lock s' = true ∧
  SurfstoreServer.current_term s' = SurfstoreServer.current_term s ∧
  SurfstoreServer.voted_for s' = SurfstoreServer.voted_for s ∧
  SurfstoreServer.logs s' = SurfstoreServer.logs s ∧
  SurfstoreServer.commit_index s' = SurfstoreServer.commit_index s ∧
  SurfstoreServer.state s' = SurfstoreServer.state s ∧
  SurfstoreServer.is_crashed s' = SurfstoreServer.is_crashed s.
Proof.
  intros Hstep Hlock. destruct Hstep.
  - unfold SurfstoreServer.crash. by rewrite Hlock.
  - unfold SurfstoreServer.restore. by rewrite Hlock.
  - unfold SurfstoreServer.requestVote. by rewrite Hlock.
  - unfold SurfstoreServer.appendEntries. by rewrite Hlock.
  - unfold SurfstoreServer.updatefile_append. rewrite Hlock.
    by destruct (SurfstoreServer.isLeader s).
  - unfold SurfstoreServer.updatefile_wait.
    destruct (_ && _); [done|].
    destruct (SurfstoreServer.isLeader s); [|done]. simpl.
    by destruct (SurfStore.updatefile _ _ _ _).
  - unfold Roles.convert_to_candidate. rewrite Hlock.
    by destruct (SurfstoreServer.state s) as [[| |]|] eqn:Hst.
  - unfold Roles.elect_leader. rewrite Hlock.
    by destruct (SurfstoreServer.state s) as [[| |]|] eqn:Hst.
  - unfold Roles.append_entry. rewrite Hlock.
    by destruct (SurfstoreServer.state s) as [[| |]|] eqn:Hst.
Qed.

(** X3: a lock that is held between two steps is never released again, and
    from then on the replica is frozen: whatever RPCs arrive and whatever
    its role loop does, its lock, term, vote, log, commit index, role and
    crashed flag stay as they are (crash() and restore() wait for the lock
    for ever). *)
Theorem held_lock_freezes (s s' : SurfstoreServer.t) :
  rtc step s s' → SurfstoreServer.lock s = true →
  SurfstoreServer.lock s' = true ∧
  SurfstoreServer.current_term s' = SurfstoreServer.current_term s ∧
  SurfstoreServer.voted_for s' = SurfstoreServer.voted_for s ∧
  SurfstoreServer.logs s' = SurfstoreServer.logs s ∧
  SurfstoreServer.commit_index s' = SurfstoreServer.commit_index s ∧
  SurfstoreServer.state s' = SurfstoreServer.state s ∧
  SurfstoreServer.is_crashed s' = SurfstoreServer.is_crashed s.
Proof.
  induction 1 as [|x y z Hxy _ IH]; [done|]. intros Hlock.
  destruct (step_lock_held x y Hxy Hlock) as (Hl & ? & ? & ? & ? & ? & ?).
  destruct (IH Hl) as (? & ? & ? & ? & ? & ? & ?).
  split_and!; congruence.
Qed.

Lemma held_lock_freezes_witness :
  let s := (SurfstoreServer.appendEntries follower0 1 1 1 [entry_a1] 0).1 in
  let s' := (SurfstoreServer.restore (SurfstoreServer.crash s).1).1 in
  SurfstoreServer.lock s' = true ∧
  SurfstoreServer.current_term s' = SurfstoreServer.current_term s ∧
  SurfstoreServer.voted_for s' = SurfstoreServer.voted_for s ∧
  SurfstoreServer.logs s' = SurfstoreServer.logs s ∧
  SurfstoreServer.commit_index s' = SurfstoreServer.commit_index s ∧
  SurfstoreServer.state s' = SurfstoreServer.state s ∧
  SurfstoreServer.is_crashed s' = SurfstoreServer.is_crashed s.
Proof.
  cbv zeta. apply held_lock_freezes; [|reflexivity].
  eapply rtc_l; [apply step_crash|]. apply rtc_once, step_restore.
Defined.

Lemma reachable_coherent (proxies : list Z) (id n : Z)
    (s : SurfstoreServer.t) :
  reachable proxies id n s → Spec.down_coherent s.
Proof.
  revert s. unfold reachable. apply rtc_ind_r; [done|].
  intros y z _ Hstep IH. by eapply step_coherent.
Qed.

(** X4: in every reachable state whose lock is free, RequestVote returns a
    reply (it never raises) and has released the lock when it returns. *)
Theorem requestVote_releases (proxies : list Z) (id n : Z)
    (s : SurfstoreServer.t) (term candidate_id log_index log_term : Z) :
  reachable proxies id n s →
  SurfstoreServer.lock s = false →
  ∃ r, (SurfstoreServer.requestVote s term candidate_id
          log_index log_term).2 = Ok r ∧
       SurfstoreServer.lock
         (SurfstoreServer.requestVote s term candidate_id
            log_index log_term).1 = false.
Proof.
  intros Hr Hlock. pose proof (reachable_coherent _ _ _ _ Hr) as Hco.
  unfold SurfstoreServer.requestVote. rewrite Hlock. simpl.
  destruct (SurfstoreServer.is_crashed s) eqn:Hc; [by eexists|].
  destruct (SurfstoreServer.state s) as [st|] eqn:Hst; last first.
  { apply Hco in Hst. congruence. }
  destruct (SurfstoreServer.check_term _ _) as [s1 ok].
  destruct ok; simpl; [|by eexists].
  destruct (_ && _); by eexists.
Qed.

Lemma requestVote_releases_witness :
  ∃ r, (SurfstoreServer.requestVote follower2 3 1 2 1).2 = Ok r ∧
       SurfstoreServer.lock
         (SurfstoreServer.requestVote follower2 3 1 2 1).1 = false.
Proof.
  apply (requestVote_releases [1; 2] 0 3 follower2 3 1 2 1); [|reflexivity].
  apply (rtc_l _ _ follower0); [apply step_restore|].
  apply (rtc_once _ _ (step_appendEntries follower0 1 0 0
                         [entry_a1; entry_b1] 2)).
Defined.

(** X5: an AppendEntries that took the lock and then raised (an entry to
    apply that the file store refuses, an index outside the log) leaves the
    lock held: no path of the handler releases it on an exception. *)
Theorem appendEntries_raise_keeps_lock (s s' : SurfstoreServer.t)
    (term prev_index prev_term : Z) (entries : list entry)
    (leader_commit : Z) (e : exn) :
  SurfstoreServer.lock s = false →
  SurfstoreServer.appendEntries s term prev_index prev_term entries
    leader_commit = (s', Raise e) →
  SurfstoreServer.lock s' = true.
Proof.
  intros Hlock. unfold SurfstoreServer.appendEntries. rewrite Hlock. simpl.
  destruct (SurfstoreServer.is_crashed s); [done|].
  destruct (SurfstoreServer.state s) as [st|]; [|by intros [= <- _]].
  match goal with
  | |- context [SurfstoreServer.check_term ?t ?x] =>
      pose proof (check_term_pass_lock t x) as Hl;
      destruct (SurfstoreServer.check_term t x) as [s1 ok]
  end.
  simpl in Hl. destruct ok; simpl; [|done].
  assert (Htail : ∀ x lc,
            SurfstoreServer.lock x = true →
            SurfstoreServer.commit_and_apply x lc = (s', Raise e) →
            SurfstoreServer.lock s' = true).
  { intros x lc Hx. unfold SurfstoreServer.commit_and_apply.
    destruct (lc >? _); simpl;
      (destruct (_ >? _); [|done]);
      destruct (SurfstoreServer.apply_loop _ _ _ _) as [fi [[]| |]];
      (done || by intros [= <- _]). }
  destruct entries as [|e0 entries]; [by apply Htail|].
  destruct (SurfstoreServer.mismatch _ _ _) as [[|]|];
    [done | | by intros [= <- _]].
  destruct (SurfstoreServer.conflict_loop _ _ _) as [logs'| |];
    [by apply Htail | by intros [= <- _] | done].
Qed.

Lemma appendEntries_raise_keeps_lock_witness :
  SurfstoreServer.lock
    (SurfstoreServer.appendEntries follower0 1 0 0 [entry_x5] 1).1 = true.
Proof.
  apply (appendEntries_raise_keeps_lock follower0 _ 1 0 0 [entry_x5] 1
           AssertionError eq_refl).
  vm_compute. reflexivity.
Defined.

(** ** Replication of the log *)

(** X6: the Leader [L] sends to a peer the request its loop builds from the
    peer's next index; the peer [F] is up, not ahead in term, and its log
    agrees with the Leader's below that index.  Then the peer's log is the
    Leader's log after the call, the peer is in the Leader's term, and the
    reply is (term, true) unless applying raises. *)
Theorem follower_catches_up (L F : SurfstoreServer.t) (st : State)
    (ni : gmap Z Z) (p next_index prev_term : Z) (entries : list entry) :
  SurfstoreServer.lock F = false →
  SurfstoreServer.is_crashed F = false →
  SurfstoreServer.state F = Some st →
  SurfstoreServer.current_term F ≤ SurfstoreServer.current_term L →
  ni !! p = Some next_index →
  1 ≤ next_index ≤ Py.len (SurfstoreServer.logs L) →
  Roles.prev_term_of (SurfstoreServer.logs L) (next_index - 1)
  = Some prev_term →
  Roles.entries_for (SurfstoreServer.logs L) ni p = Some entries →
  next_index - 1 ≤ Py.len (SurfstoreServer.logs F) →
  take (Z.to_nat (next_index - 1)) (SurfstoreServer.logs F)
  = take (Z.to_nat (next_index - 1)) (SurfstoreServer.logs L) →
  let r := SurfstoreServer.appendEntries F (SurfstoreServer.current_term L)
             (next_index - 1) prev_term entries
             (SurfstoreServer.commit_index L) in
  SurfstoreServer.logs r.1 = SurfstoreServer.logs L ∧
  SurfstoreServer.current_term r.1 = SurfstoreServer.current_term L ∧
  (r.2 = Ok (SurfstoreServer.current_term L, true) ∨ ∃ e, r.2 = Raise e).
Proof.
  intros Hlock Hup Hst Hterm Hni Hrange Hpt Hes Hlen Hpre. cbv zeta.
  unfold Roles.entries_for in Hes. rewrite Hni in Hes.
  destruct (Z.geb_spec (Py.len (SurfstoreServer.logs L)) next_index);
    [|lia].
  injection Hes as Hes. revert Hes.
  unfold Py.slice_from, Py.slice_start.
  destruct (Z.ltb_spec (next_index - 1) 0); [lia|].
  rewrite Z.min_l by lia.
  set (k := Z.to_nat (next_index - 1)) in *. intros Hes.
  assert (Hk : (k < length (SurfstoreServer.logs L))%nat)
    by (unfold Py.len in Hrange; lia).
  assert (Hne : entries ≠ []).
  { intros ->. apply (f_equal length) in Hes. rewrite length_drop in Hes.
    simpl in Hes. lia. }
  unfold SurfstoreServer.appendEntries. rewrite Hlock.
  change (SurfstoreServer.is_crashed (SurfstoreServer.set_lock true F))
    with (SurfstoreServer.is_crashed F).
  change (SurfstoreServer.state (SurfstoreServer.set_lock true F))
    with (SurfstoreServer.state F).
  rewrite Hup, Hst.
  set (F0 := SurfstoreServer.set_state _ _).
  destruct (check_term_pass (SurfstoreServer.current_term L) F0)
    as (F1 & -> & Ht & _ & Hl & _); [exact Hterm|].
  change (SurfstoreServer.logs F0) with (SurfstoreServer.logs F) in Hl.
  simpl negb. cbv iota.
  assert (Hmis : SurfstoreServer.mismatch (SurfstoreServer.logs F1)
                   (next_index - 1) prev_term = Some false).
  { rewrite Hl. unfold SurfstoreServer.mismatch.
    destruct (Z.ltb_spec (Py.len (SurfstoreServer.logs F)) (next_index - 1));
      [lia|].
    destruct (Z.gtb_spec (next_index - 1) 0) as [Hpos|]; [|done].
    revert Hpt. unfold Roles.prev_term_of, Py.get.
    destruct (Z.eqb_spec (next_index - 1) 0); [lia|].
    destruct (Z.ltb_spec (next_index - 1 - 1) 0); [lia|].
    assert (Hsame : SurfstoreServer.logs F !! Z.to_nat (next_index - 1 - 1)
                    = SurfstoreServer.logs L !! Z.to_nat (next_index - 1 - 1)).
    { rewrite <- (lookup_take_lt (SurfstoreServer.logs F) k) by lia.
      rewrite <- (lookup_take_lt (SurfstoreServer.logs L) k) by lia.
      by rewrite Hpre. }
    rewrite Hsame.
    destruct (SurfstoreServer.logs L !! _) as [x|]; [|done].
    simpl. intros [= ->]. by rewrite Z.eqb_refl. }
  assert (Hrec : SurfstoreServer.reconcile (SurfstoreServer.logs F1)
                   (next_index - 1) entries
                 = Ok (SurfstoreServer.logs L)).
  { rewrite reconcile_wholesale by (rewrite Hl; lia).
    rewrite Hl. fold k. by rewrite Hpre, <- Hes, take_drop. }
  unfold SurfstoreServer.reconcile in Hrec.
  destruct entries as [|e es]; [done|].
  rewrite Hmis.
  destruct (SurfstoreServer.conflict_loop _ _ _) as [logs'| |];
    [|done|done].
  injection Hrec as Hrec. rewrite Hrec, commit_and_apply_logs.
  match goal with
  | |- context [SurfstoreServer.commit_and_apply ?x ?lc] =>
      destruct (commit_and_apply_term_vote x lc) as [Htm _];
      pose proof (commit_and_apply_reply x lc) as Hrep
  end.
  simpl in Htm, Hrep. rewrite Htm, Ht in *. done.
Qed.

Lemma follower_catches_up_witness :
  let r := SurfstoreServer.appendEntries follower0 1 0 0 [entry_a1] 0 in
  SurfstoreServer.logs r.1 = SurfstoreServer.logs leader3_pending ∧
  SurfstoreServer.current_term r.1 = 1 ∧
  (r.2 = Ok (1, true) ∨ ∃ e, r.2 = Raise e).
Proof.
  apply (follower_catches_up leader3_pending follower0 (Follower false)
           (SurfstoreServer.peer_dict leader3 1) 1 1 0 [entry_a1]);
    try reflexivity; try (vm_compute; reflexivity);
    try (vm_compute; discriminate).
  vm_compute. split; discriminate.
Defined.

(** ** Committing and applying *)

(** Applying [n + m] entries is applying [n] and then [m]. *)
Lemma apply_loop_add (n m : nat) (idx : Z) (logs : list entry)
    (fi : file_infos_t) :
  SurfstoreServer.apply_loop (n + m) idx logs fi
  = match SurfstoreServer.apply_loop n idx logs fi with
    | (fi', Ok _) => SurfstoreServer.apply_loop m (idx + Z.of_nat n) logs fi'
    | r => r
    end.
Proof.
  revert idx fi. induction n as [|n IH]; intros idx fi; simpl.
  - by rewrite Z.add_0_r.
  - destruct (Py.get logs idx) as [[tm [[f v] b]]|]; [|done]. simpl.
    destruct (SurfStore.updatefile fi f v b) as [fi' [ok| |]]; [|done|].
    + rewrite IH. replace (idx + 1 + Z.of_nat n) with (idx + Z.pos (Pos.of_succ_nat n)) by lia.
      done.
    + rewrite IH. replace (idx + 1 + Z.of_nat n) with (idx + Z.pos (Pos.of_succ_nat n)) by lia.
      done.
Qed.

Lemma apply_loop_not_spin (n : nat) (idx : Z) (logs : list entry)
    (fi : file_infos_t) :
  (SurfstoreServer.apply_loop n idx logs fi).2 ≠ Spin.
Proof.
  revert idx fi. induction n as [|n IH]; intros idx fi; simpl; [done|].
  destruct (Py.get logs idx) as [[tm [[f v] b]]|]; [|done]. simpl.
  destruct (SurfStore.updatefile fi f v b) as [fi' [| |]]; try done;
    apply IH.
Qed.

(** On a replica that satisfies the invariant the tail of AppendEntries
    moves the commit index to [max commit_index (min leader_commit
    len(logs))] and applies the entries up to it. *)
Lemma commit_and_apply_normal (s : SurfstoreServer.t) (leader_commit : Z) :
  Spec.index_invariant s →
  let c := Z.max (SurfstoreServer.commit_index s)
             (Z.min leader_commit (Py.len (SurfstoreServer.logs s))) in
  SurfstoreServer.commit_and_apply s leader_commit
  = match SurfstoreServer.apply_loop
            (Z.to_nat (c - SurfstoreServer.last_applied s))
            (SurfstoreServer.last_applied s) (SurfstoreServer.logs s)
            (SurfstoreServer.file_infos s) with
    | (fi, Ok _) =>
        (SurfstoreServer.set_lock false
           (SurfstoreServer.set_last_applied c
              (SurfstoreServer.set_file_infos fi
                 (SurfstoreServer.set_commit_index c s))),
         Ok (SurfstoreServer.current_term s, true))
    | (fi, Raise e) =>
        (SurfstoreServer.set_file_infos fi
           (SurfstoreServer.set_commit_index c s), Raise e)
    | (fi, Spin) =>
        (SurfstoreServer.set_file_infos fi
           (SurfstoreServer.set_commit_index c s), Spin)
    end.
Proof.
  intros [Hla Hci]. cbv zeta. unfold SurfstoreServer.commit_and_apply.
  destruct (Z.gtb_spec leader_commit (SurfstoreServer.commit_index s))
    as [Hgt|Hle].
  - rewrite Z.max_r by lia. simpl.
    destruct (Z.gtb_spec
                (Z.min leader_commit (Py.len (SurfstoreServer.logs s)))
                (SurfstoreServer.last_applied s)) as [Hap|Hap].
    + destruct (SurfstoreServer.apply_loop _ _ _ _) as [fi [[]| |]]; done.
    + replace (Z.to_nat _) with O by lia. simpl.
      destruct s; simpl in *. f_equal.
      unfold SurfstoreServer.set_lock, SurfstoreServer.set_last_applied,
        SurfstoreServer.set_file_infos, SurfstoreServer.set_commit_index.
      simpl. f_equal; lia.
  - rewrite Z.max_l by lia.
    destruct (Z.gtb_spec (SurfstoreServer.commit_index s)
                (SurfstoreServer.last_applied s)) as [Hap|Hap].
    + destruct (SurfstoreServer.apply_loop _ _ _ _) as [fi [[]| |]];
        destruct s; done.
    + replace (Z.to_nat _) with O by lia. simpl.
      destruct s; simpl in *. f_equal.
      unfold SurfstoreServer.set_lock, SurfstoreServer.set_last_applied,
        SurfstoreServer.set_file_infos, SurfstoreServer.set_commit_index.
      simpl. f_equal; lia.
Qed.

(** X7: commit notices are cumulative.  On a replica that satisfies
    LastApplied ≤ CommitIndex ≤ len(Log), committing and applying for a
    leader commit [c1] and then for [c2 ≥ c1] ends in the state, and with
    the reply, of doing it once for [c2]. *)
Theorem commit_notices_cumulative (s sA sB : SurfstoreServer.t)
    (c1 c2 : Z) (rA rB : Z * bool) :
  Spec.index_invariant s →
  c1 ≤ c2 →
  SurfstoreServer.commit_and_apply s c1 = (sA, Ok rA) →
  SurfstoreServer.commit_and_apply sA c2 = (sB, Ok rB) →
  SurfstoreServer.commit_and_apply s c2 = (sB, Ok rB).
Proof.
  intros Hinv Hle HA HB.
  pose proof (commit_and_apply_invariant s c1 Hinv) as [HinvA _].
  rewrite HA in HinvA. simpl in HinvA.
  rewrite (commit_and_apply_normal sA c2 HinvA) in HB.
  rewrite (commit_and_apply_normal s c1 Hinv) in HA.
  rewrite (commit_and_apply_normal s c2 Hinv).
  cbv zeta in *. destruct Hinv as [Hla Hci].
  set (len := Py.len (SurfstoreServer.logs s)) in *.
  set (ci := SurfstoreServer.commit_index s) in *.
  set (la := SurfstoreServer.last_applied s) in *.
  destruct (SurfstoreServer.apply_loop (Z.to_nat (Z.max ci (Z.min c1 len) - la))
              la (SurfstoreServer.logs s) (SurfstoreServer.file_infos s))
    as [fiA [[]| |]] eqn:HapA; [|done|done].
  injection HA as <- <-. simpl in HB.
  fold len in HB.
  replace (Z.max (Z.max ci (Z.min c1 len)) (Z.min c2 len))
    with (Z.max ci (Z.min c2 len)) in HB by lia.
  replace (Z.to_nat (Z.max ci (Z.min c2 len) - la))
    with (Z.to_nat (Z.max ci (Z.min c1 len) - la)
          + Z.to_nat (Z.max ci (Z.min c2 len) - Z.max ci (Z.min c1 len)))%nat
    by lia.
  rewrite apply_loop_add, HapA.
  replace (la + Z.of_nat (Z.to_nat (Z.max ci (Z.min c1 len) - la)))
    with (Z.max ci (Z.min c1 len)) by lia.
  destruct (SurfstoreServer.apply_loop _ _ _ fiA) as [fiB [[]| |]];
    [|done|done].
  injection HB as <- <-. reflexivity.
Qed.

Lemma commit_notices_cumulative_witness :
  SurfstoreServer.commit_and_apply follower_logged 2
  = ((SurfstoreServer.commit_and_apply
        (SurfstoreServer.commit_and_apply follower_logged 1).1 2).1,
     Ok (1, true)).
Proof.
  apply (commit_notices_cumulative follower_logged
           (SurfstoreServer.commit_and_apply follower_logged 1).1 _
           1 2 (1, true) (1, true)).
  - vm_compute. split; discriminate.
  - lia.
  - vm_compute. reflexivity.
  - vm_compute. reflexivity.
Defined.

Lemma commit_and_apply_ok (s s' : SurfstoreServer.t) (leader_commit : Z)
    (r : Z * bool) :
  Spec.index_invariant s →
  SurfstoreServer.commit_and_apply s leader_commit = (s', Ok r) →
  SurfstoreServer.last_applied s' = SurfstoreServer.commit_index s' ∧
  SurfstoreServer.commit_index s'
  = Z.max (SurfstoreServer.commit_index s)
      (Z.min leader_commit (Py.len (SurfstoreServer.logs s))) ∧
  SurfstoreServer.logs s' = SurfstoreServer.logs s ∧
  r = (SurfstoreServer.current_term s, true).
Proof.
  intros Hinv. rewrite (commit_and_apply_normal s leader_commit Hinv).
  cbv zeta.
  destruct (SurfstoreServer.apply_loop _ _ _ _) as [fi [[]| |]];
    [|done|done].
  by intros [= <- <-].
Qed.

(** X8: an AppendEntries that replies success on a replica satisfying
    LastApplied ≤ CommitIndex ≤ len(Log), and that does not leave the log
    shorter than the commit index, has applied everything it knows to be
    committed: LastApplied = CommitIndex = max(old CommitIndex,
    min(leaderCommit, len(Log))). *)
Theorem appendEntries_applies_all (s s' : SurfstoreServer.t)
    (term prev_index prev_term : Z) (entries : list entry)
    (leader_commit t : Z) :
  Spec.index_invariant s →
  SurfstoreServer.lock s = false →
  SurfstoreServer.appendEntries s term prev_index prev_term entries
    leader_commit = (s', Ok (t, true)) →
  SurfstoreServer.commit_index s ≤ Py.len (SurfstoreServer.logs s') →
  SurfstoreServer.last_applied s' = SurfstoreServer.commit_index s' ∧
  SurfstoreServer.commit_index s'
  = Z.max (SurfstoreServer.commit_index s)
      (Z.min leader_commit (Py.len (SurfstoreServer.logs s'))).
Proof.
  intros Hinv Hlock. unfold SurfstoreServer.appendEntries.
  rewrite Hlock. simpl.
  destruct (SurfstoreServer.is_crashed s); [done|].
  destruct (SurfstoreServer.state s) as [st|]; [|done].
  match goal with
  | |- context [SurfstoreServer.check_term ?tm ?x] =>
      pose proof (check_term_same tm x) as (Hl & Hc & Ha);
      destruct (SurfstoreServer.check_term tm x) as [s1 ok]
  end.
  simpl in Hl, Hc, Ha. destruct ok; simpl; [|done].
  assert (Hinv1 : Spec.index_invariant s1)
    by (unfold Spec.index_invariant in *; rewrite Hl, Hc, Ha; done).
  destruct entries as [|e entries].
  - intros Hr _.
    destruct (commit_and_apply_ok _ _ _ _ Hinv1 Hr) as (H1 & H2 & H3 & _).
    rewrite H1, H2, H3, Hc. done.
  - destruct (SurfstoreServer.mismatch _ _ _) as [[|]|]; [done| |done].
    destruct (SurfstoreServer.conflict_loop _ _ _) as [logs'| |];
      [|done|done].
    intros Hr Hlen.
    pose proof (commit_and_apply_logs
                  (SurfstoreServer.set_logs
                     (Py.assign_from logs' prev_index (e :: entries)) s1)
                  leader_commit) as Hlogs.
    rewrite Hr in Hlogs. simpl in Hlogs. rewrite Hlogs in Hlen.
    assert (Hinv2 : Spec.index_invariant
                      (SurfstoreServer.set_logs
                         (Py.assign_from logs' prev_index (e :: entries)) s1))
      by (unfold Spec.index_invariant in *; simpl; lia).
    destruct (commit_and_apply_ok _ _ _ _ Hinv2 Hr) as (H1 & H2 & H3 & _).
    simpl in H2, H3. rewrite H1, H2, Hlogs, Hc. done.
Qed.

Lemma appendEntries_applies_all_witness :
  SurfstoreServer.last_applied follower2 = 2 ∧
  SurfstoreServer.commit_index follower2 = 2.
Proof.
  destruct (appendEntries_applies_all follower0 follower2 1 0 0
              [entry_a1; entry_b1] 2 1) as [H1 H2].
  - vm_compute. split; discriminate.
  - reflexivity.
  - vm_compute. reflexivity.
  - vm_compute. discriminate.
  - split; [rewrite H1|]; rewrite H2; reflexivity.
Defined.

(** ** The outcome of an election round *)





(** ** What a round of the Leader does for each peer *)

Section round_effect.
Variable reply : Z → AppendEntriesArgs → option (Z * bool).
Variable s : SurfstoreServer.t.
Variable ni : gmap Z Z.

Lemma peers_loop_effect (ps : list Z) (a a' : Roles.acc) :
  NoDup ps →
  (∀ p, p ∈ ps → Roles.next_indexes a !! p = ni !! p) →
  Roles.peers_loop reply s ni ps a = (a', Ok tt) →
  Roles.n_up a'
  = Roles.n_up a + Py.len (List.filter (Round.answered reply s ni) ps) ∧
  ∀ p,
    if decide (p ∈ ps) then
      match Round.answer_of reply s ni p with
      | Some (term, true) =>
          Roles.next_indexes a' !! p
          = Some (Py.len (SurfstoreServer.logs s) + 1) ∧
          Roles.match_indexes a' !! p
          = Some (Py.len (SurfstoreServer.logs s))
      | Some (term, false) =>
          Roles.next_indexes a' !! p
          = (if term =? -1 then ni !! p else (λ n, n - 1) <$> ni !! p) ∧
          Roles.match_indexes a' !! p = Roles.match_indexes a !! p
      | None =>
          Roles.next_indexes a' !! p = ni !! p ∧
          Roles.match_indexes a' !! p = Roles.match_indexes a !! p
      end
    else
      Roles.next_indexes a' !! p = Roles.next_indexes a !! p ∧
      Roles.match_indexes a' !! p = Roles.match_indexes a !! p.
Proof.
  revert a. induction ps as [|q ps IH]; intros a Hnd Hag Hloop;
    simpl in Hloop.
  - injection Hloop as <-. split; [unfold Py.len; simpl; lia|].
    intros p. rewrite decide_False; [done | apply not_elem_of_nil].
  - revert Hloop. apply NoDup_cons in Hnd as [Hq Hnd].
    assert (Hnq : Roles.next_indexes a !! q = ni !! q)
      by (apply Hag, elem_of_cons; by left).
    rewrite Hnq. destruct (ni !! q) as [n|] eqn:Hn; [|done].
    destruct (Roles.prev_term_of _ _) as [pt|] eqn:Hpt; [|done].
    destruct (Roles.entries_for _ _ _) as [es|] eqn:Hes; [|done].
    set (args := mkAE _ _ _ _ _).
    assert (Hans : Round.answer_of reply s ni q = reply q args).
    { unfold Round.answer_of, Round.request_to. by rewrite Hn, Hpt, Hes. }
    destruct (reply q args) as [[term ok]|] eqn:Hr.
    + (* the peer answered *)
      set (a1 := if ok then
                   Roles.mkAcc
                     (<[q := Py.len (SurfstoreServer.logs s) + 1]>
                        (Roles.next_indexes a))
                     (<[q := Py.len (SurfstoreServer.logs s)]>
                        (Roles.match_indexes a))
                     (Z.max (Roles.latest_term a) term) (Roles.n_up a + 1)
                 else if negb (term =? -1) then
                   Roles.mkAcc (<[q := n - 1]> (Roles.next_indexes a))
                     (Roles.match_indexes a)
                     (Z.max (Roles.latest_term a) term) (Roles.n_up a + 1)
                 else
                   Roles.mkAcc (Roles.next_indexes a) (Roles.match_indexes a)
                     (Z.max (Roles.latest_term a) term) (Roles.n_up a)).
      intros Hloop.
      assert (Hloop1 : Roles.peers_loop reply s ni ps a1 = (a', Ok tt)).
      { subst a1. destruct ok; [done|]. by destruct (negb (term =? -1)). }
      clear Hloop.
      assert (Hag1 : ∀ p, p ∈ ps → Roles.next_indexes a1 !! p = ni !! p).
      { intros p Hp. assert (p ≠ q) by (intros ->; done).
        rewrite <- (Hag p) by (apply elem_of_cons; by right).
        subst a1. destruct ok; simpl; [by rewrite lookup_insert_ne|].
        destruct (negb (term =? -1)); simpl; [by rewrite lookup_insert_ne|].
        done. }
      destruct (IH a1 Hnd Hag1 Hloop1) as [Hup Heff]. split.
      * rewrite Hup. simpl. unfold Round.answered at 2. rewrite Hans.
        subst a1. unfold Py.len.
        destruct ok; simpl; [lia|].
        destruct (term =? -1); simpl; lia.
      * intros p. specialize (Heff p).
        destruct (decide (p = q)) as [->|Hpq].
        -- rewrite decide_True by (apply elem_of_cons; by left).
           rewrite decide_False in Heff by done.
           rewrite Hans. destruct Heff as [-> ->]. subst a1.
           destruct ok; simpl; [by rewrite !lookup_insert_eq|].
           destruct (term =? -1); simpl;
             [by rewrite Hnq, Hn | by rewrite lookup_insert_eq, Hn].
        -- assert (Hother : Roles.next_indexes a1 !! p
                            = Roles.next_indexes a !! p ∧
                            Roles.match_indexes a1 !! p
                            = Roles.match_indexes a !! p).
           { subst a1. destruct ok; simpl;
               [by rewrite !lookup_insert_ne|].
             destruct (negb (term =? -1)); simpl;
               [by rewrite lookup_insert_ne | done]. }
           destruct Hother as [Hn1 Hm1].
           destruct (decide (p ∈ ps)) as [Hin|Hnin].
           ++ rewrite decide_True by (apply elem_of_cons; by right).
              destruct (Round.answer_of reply s ni p) as [[t [|]]|];
                by rewrite <- ?Hm1.
           ++ rewrite decide_False
                by (rewrite elem_of_cons; intros [|]; done).
              by rewrite <- Hn1, <- Hm1.
    + (* the call timed out *)
      intros Hloop.
      assert (Hag1 : ∀ p, p ∈ ps → Roles.next_indexes a !! p = ni !! p)
        by (intros p Hp; apply Hag, elem_of_cons; by right).
      destruct (IH a Hnd Hag1 Hloop) as [Hup Heff]. split.
      { rewrite Hup. simpl. unfold Round.answered at 2. by rewrite Hans. }
      intros p. specialize (Heff p).
      destruct (decide (p = q)) as [->|Hpq].
      * rewrite decide_True by (apply elem_of_cons; by left).
        rewrite decide_False in Heff by done.
        rewrite Hans. destruct Heff as [-> ->]. by rewrite Hnq, Hn.
      * destruct (decide (p ∈ ps)) as [Hin|Hnin].
        -- by rewrite decide_True by (apply elem_of_cons; by right).
        -- by rewrite decide_False
             by (rewrite elem_of_cons; intros [|]; done).
Qed.
End round_effect.

(** A round that ends with the Leader still Leader, in terms of the answers
    of its peers. *)
Lemma append_entry_stays_leader (s s' : SurfstoreServer.t) (ni mi : gmap Z Z)
    (reply : Z → AppendEntriesArgs → option (Z * bool)) :
  SurfstoreServer.state s = Some (Leader ni mi) →
  SurfstoreServer.lock s = false →
  NoDup (SurfstoreServer.proxies s) →
  Roles.append_entry reply s = (s', Ok false) →
  ∃ a, Roles.peers_loop reply s ni (SurfstoreServer.proxies s)
         (Roles.mkAcc ni mi (SurfstoreServer.current_term s) 1)
       = (a, Ok tt) ∧
       SurfstoreServer.state s'
       = Some (Leader (Roles.next_indexes a) (Roles.match_indexes a)) ∧
       SurfstoreServer.num_up s' = Roles.n_up a ∧
       SurfstoreServer.num_servers s' = SurfstoreServer.num_servers s ∧
       SurfstoreServer.file_infos s' = SurfstoreServer.file_infos s ∧
       SurfstoreServer.current_term s' = SurfstoreServer.current_term s ∧
       SurfstoreServer.logs s' = SurfstoreServer.logs s.
Proof.
  intros Hst Hlock Hnd. unfold Roles.append_entry. rewrite Hst, Hlock.
  destruct (Roles.peers_loop _ _ _ _ _) as [a [[]| |]]; [|done|done].
  destruct (Roles.advance_commit _ _) as [c| |]; [|done|done].
  destruct (_ >? _); [done|]. intros [= <-]. by exists a.
Qed.

(** X10: a round after which the Leader is still Leader has, for each of
    its (distinct) peers: set next index to len(Log)+1 and match index to
    len(Log) if the peer answered success; lowered the next index by one,
    keeping the match index, if it answered failure with a term other than
    -1; and changed neither if it answered (-1, false) or not at all.
    Entries of the two dictionaries for anyone else are untouched. *)
Theorem round_updates_indexes (s s' : SurfstoreServer.t) (ni mi : gmap Z Z)
    (reply : Z → AppendEntriesArgs → option (Z * bool)) :
  SurfstoreServer.state s = Some (Leader ni mi) →
  SurfstoreServer.lock s = false →
  NoDup (SurfstoreServer.proxies s) →
  Roles.append_entry reply s = (s', Ok false) →
  ∃ ni' mi',
    SurfstoreServer.state s' = Some (Leader ni' mi') ∧
    ∀ p,
      if decide (p ∈ SurfstoreServer.proxies s) then
        match Round.answer_of reply s ni p with
        | Some (term, true) =>
            ni' !! p = Some (Py.len (SurfstoreServer.logs s) + 1) ∧
            mi' !! p = Some (Py.len (SurfstoreServer.logs s))
        | Some (term, false) =>
            ni' !! p
            = (if term =? -1 then ni !! p else (λ n, n - 1) <$> ni !! p) ∧
            mi' !! p = mi !! p
        | None => ni' !! p = ni !! p ∧ mi' !! p = mi !! p
        end
      else ni' !! p = ni !! p ∧ mi' !! p = mi !! p.
Proof.
  intros Hst Hlock Hnd Hround.
  destruct (append_entry_stays_leader s s' ni mi reply Hst Hlock Hnd Hround)
    as (a & Hloop & Hst' & _).
  exists (Roles.next_indexes a), (Roles.match_indexes a).
  split; [done|].
  destruct (peers_loop_effect reply s ni (SurfstoreServer.proxies s)
              (Roles.mkAcc ni mi (SurfstoreServer.current_term s) 1) a
              Hnd (λ _ _, eq_refl) Hloop) as [_ Heff].
  intros p. exact (Heff p).
Qed.

Lemma round_updates_indexes_witness :
  ∃ ni' mi',
    SurfstoreServer.state (Roles.append_entry all_ok leader3_pending).1
    = Some (Leader ni' mi') ∧
    ni' !! 1 = Some 2 ∧ mi' !! 1 = Some 1.
Proof.
  destruct (round_updates_indexes leader3_pending
              (Roles.append_entry all_ok leader3_pending).1
              (SurfstoreServer.peer_dict leader3 1)
              (SurfstoreServer.peer_dict leader3 0) all_ok)
    as (ni' & mi' & Hst & Heff).
  - vm_compute. reflexivity.
  - reflexivity.
  - change (SurfstoreServer.proxies leader3_pending) with [1; 2].
    compute_done.
  - vm_compute. reflexivity.
  - exists ni', mi'. split; [exact Hst|]. exact (Heff 1).
Defined.

(** X11: the read quorum.  After a round that leaves the Leader Leader,
    [num_up] is one plus the number of peers that answered success or an
    in-term failure, and [getfileinfomap] returns the file map exactly when
    that number reaches num_servers // 2 + 1; otherwise it keeps
    waiting. *)
Theorem read_after_round (s s' : SurfstoreServer.t) (ni mi : gmap Z Z)
    (reply : Z → AppendEntriesArgs → option (Z * bool)) :
  SurfstoreServer.state s = Some (Leader ni mi) →
  SurfstoreServer.lock s = false →
  NoDup (SurfstoreServer.proxies s) →
  Roles.append_entry reply s = (s', Ok false) →
  let up := 1 + Py.len (List.filter (Round.answered reply s ni)
                          (SurfstoreServer.proxies s)) in
  SurfstoreServer.num_up s' = up ∧
  SurfstoreServer.getfileinfomap s'
  = (s', if decide (SurfstoreServer.num_servers s / 2 + 1 ≤ up)
         then Ok (SurfstoreServer.file_infos s) else Spin).
Proof.
  intros Hst Hlock Hnd Hround. cbv zeta.
  destruct (append_entry_stays_leader s s' ni mi reply Hst Hlock Hnd Hround)
    as (a & Hloop & Hst' & Hup & HN & Hfi & _).
  destruct (peers_loop_effect reply s ni (SurfstoreServer.proxies s)
              (Roles.mkAcc ni mi (SurfstoreServer.current_term s) 1) a
              Hnd (λ _ _, eq_refl) Hloop) as [Hn _].
  simpl in Hn. rewrite Hup, Hn. split; [done|].
  unfold SurfstoreServer.getfileinfomap, SurfstoreServer.isLeader.
  rewrite Hst', Hup, Hn, HN, Hfi. simpl.
  case_decide; destruct (Z.ltb_spec
    (1 + Py.len (List.filter (Round.answered reply s ni)
                   (SurfstoreServer.proxies s)))
    (SurfstoreServer.num_servers s / 2 + 1)); (done || lia).
Qed.

Lemma read_after_round_witness :
  SurfstoreServer.num_up (Roles.append_entry all_ok leader3_pending).1 = 3 ∧
  (SurfstoreServer.getfileinfomap
     (Roles.append_entry all_ok leader3_pending).1).2 = Ok ∅.
Proof.
  destruct (read_after_round leader3_pending
              (Roles.append_entry all_ok leader3_pending).1
              (SurfstoreServer.peer_dict leader3 1)
              (SurfstoreServer.peer_dict leader3 0) all_ok)
    as [Hup Hget].
  - vm_compute. reflexivity.
  - reflexivity.
  - change (SurfstoreServer.proxies leader3_pending) with [1; 2].
    compute_done.
  - vm_compute. reflexivity.
  - split; [exact Hup|]. rewrite Hget. reflexivity.
Defined.

(** * The file store and the block store *)

(** One call changes the version of a name by one if it is a call for that
    name that returned true, and not at all otherwise. *)
Lemma updatefile_version (fi fi' : file_infos_t) (filename name : string)
    (version : Z) (blocklist : list hash) (r : res bool) :
  SurfStore.updatefile fi filename version blocklist = (fi', r) →
  Calls.version_of fi' name
  = Calls.version_of fi name
    + (if bool_decide (filename = name)
          && match r with Ok true => true | _ => false end
       then 1 else 0).
Proof.
  unfold SurfStore.updatefile, Calls.version_of.
  destruct (fi !! filename) as [[v0 bl0]|] eqn:Hf.
  - destruct (Z.eqb_spec version (v0 + 1)) as [->|]; simpl;
      intros [= <- <-].
    + case_bool_decide as Hn; simpl.
      * subst. rewrite lookup_insert_eq, Hf. done.
      * rewrite lookup_insert_ne by done. lia.
    + rewrite andb_false_r. lia.
  - destruct (Z.eqb_spec version 1) as [->|]; simpl; intros [= <- <-].
    + case_bool_decide as Hn; simpl.
      * subst. rewrite lookup_insert_eq, Hf. done.
      * rewrite lookup_insert_ne by done. lia.
    + rewrite andb_false_r. lia.
Qed.

(** X12: after any sequence of [updatefile] calls the version a store holds
    for a name is the version it held before plus the number of calls for
    that name that returned true: every accepted update raises the version
    by exactly one, and nothing else changes it. *)
Theorem versions_count_accepted (calls : list cmd) (fi : file_infos_t)
    (name : string) :
  Calls.version_of (Calls.updatefiles calls fi).1 name
  = Calls.version_of fi name
    + Calls.accepted name calls (Calls.updatefiles calls fi).2.
Proof.
  revert fi. induction calls as [|[[f v] b] calls IH]; intros fi; simpl.
  - unfold Calls.accepted, Py.len. simpl. lia.
  - destruct (SurfStore.updatefile fi f v b) as [fi1 r] eqn:Hu.
    specialize (IH fi1).
    destruct (Calls.updatefiles calls fi1) as [fi' rs]. simpl in *.
    rewrite IH, (updatefile_version _ _ _ name _ _ _ Hu).
    unfold Calls.accepted, Py.len. simpl.
    destruct (bool_decide (f = name)
              && match r with Ok true => true | _ => false end);
      simpl; lia.
Qed.

Section blocks.
Variable sha256 : bytes → hash.

(** X13: [putblock] keeps a block store content-addressed, and a block put
    with success is the one [getblock] returns for its hash; what was
    stored under other hashes is as before. *)
Theorem putblock_addressed (blocks blocks' : blocks_t) (b : bytes)
    (r : res bool) :
  addressed sha256 blocks →
  Blocks.putblock sha256 blocks b = (blocks', r) →
  addressed sha256 blocks' ∧
  (∀ h, h ≠ sha256 b → Blocks.getblock blocks' h = Blocks.getblock blocks h) ∧
  (r = Ok true → Blocks.getblock blocks' (sha256 b) = Ok b) ∧
  (b = [] → r = Raise AssertionError ∧ blocks' = blocks).
Proof.
  intros Hadd. unfold Blocks.putblock, Blocks.getblock, Py.len.
  destruct b as [|x b].
  - simpl. intros [= <- <-]. done.
  - destruct (Z.gtb_spec (Z.of_nat (length (x :: b))) 0) as [_|Hlen];
      [|simpl in Hlen; lia].
    simpl. intros [= <- <-]. split_and!.
    + intros h b' Hb. destruct (decide (h = sha256 (x :: b))) as [->|Hne].
      * rewrite lookup_insert_eq in Hb. by injection Hb as <-.
      * rewrite lookup_insert_ne in Hb by done. by apply Hadd.
    + intros h Hne. by rewrite lookup_insert_ne.
    + intros _. by rewrite lookup_insert_eq.
    + done.
Qed.

(** X14: [hasblocks] answers with the hashes of the list that [getblock]
    can serve, in the order of the list; asking again with the answer
    gives the answer back, and the answer is the whole list exactly when
    every block of the list is there. *)
Theorem hasblocks_served (blocks : blocks_t) (blocklist : list hash) :
  (∀ h, h ∈ Blocks.hasblocks blocks blocklist
        ↔ h ∈ blocklist ∧ ∃ b, Blocks.getblock blocks h = Ok b) ∧
  Blocks.hasblocks blocks blocklist `sublist_of` blocklist ∧
  Blocks.hasblocks blocks (Blocks.hasblocks blocks blocklist)
  = Blocks.hasblocks blocks blocklist ∧
  (Blocks.hasblocks blocks blocklist = blocklist
   ↔ ∀ h, h ∈ blocklist → ∃ b, Blocks.getblock blocks h = Ok b).
Proof.
  assert (Hget : ∀ h, is_Some (blocks !! h)
                      ↔ ∃ b, Blocks.getblock blocks h = Ok b).
  { intros h. unfold Blocks.getblock.
    destruct (blocks !! h) as [b|]; split.
    - intros _. by exists b.
    - intros _. by exists b.
    - intros [? [=]].
    - intros [? [=]]. }
  unfold Blocks.hasblocks. split_and!.
  - intros h. rewrite list_elem_of_filter, Hget. tauto.
  - apply sublist_filter.
  - induction blocklist as [|h l IH]; [done|].
    rewrite filter_cons. case_decide as Hh; [|done].
    rewrite filter_cons, decide_True by done. by rewrite IH.
  - split.
    + intros Heq h Hh. apply Hget. rewrite <- Heq in Hh.
      by apply list_elem_of_filter in Hh as [? _].
    + intros Hall. induction blocklist as [|h l IH]; [done|].
      rewrite filter_cons, decide_True.
      * f_equal. apply IH. intros h' Hh'. apply Hall, elem_of_cons.
        by right.
      * apply Hget, Hall, elem_of_cons. by left.
Qed.
End blocks.

Lemma putblock_addressed_witness :
  Blocks.getblock
    (Blocks.putblock String.string_of_list_byte ∅ [Byte.x01]).1
    (String.string_of_list_byte [Byte.x01]) = Ok [Byte.x01].
Proof.
  destruct (putblock_addressed String.string_of_list_byte ∅
              (Blocks.putblock String.string_of_list_byte ∅ [Byte.x01]).1
              [Byte.x01] (Ok true)) as (_ & _ & Hget & _).
  - intros h b Hb. by rewrite lookup_empty in Hb.
  - reflexivity.
  - by apply Hget.
Defined.

(** * The client *)

(** ** Splitting a file into blocks *)



Section blocks_of.
Variable block_size : Z.
Hypothesis block_size_ne : block_size ≠ 0.



End blocks_of.



(** ** Upload, then download *)

Section transfer.
Variable sha256 : bytes → hash.
Hypothesis sha256_inj : ∀ b b', sha256 b = sha256 b' → b = b'.







End transfer.


(** ** The decision of [run] for one file *)




(** * The connections of a replica *)

Section connections.
Variable gethostbyname : string → string.

(** X19: the proxies [set_up_connections] builds are keyed by the numbers
    of the servers of the list, each once, without the replica's own
    number; and the proxy of server [k] goes to the resolved host and the
    port of entry [k] of the list. *)
Theorem set_up_connections_keys (server_list : list (string * Z)) (id : Z) :
  let proxies :=
    Connections.set_up_connections gethostbyname server_list id in
  NoDup (proxies.*1) ∧
  (∀ k, k ∈ proxies.*1
        ↔ 0 ≤ k < Py.len server_list ∧ k ≠ id) ∧
  (∀ k addr, (k, addr) ∈ proxies
             ↔ k ≠ id ∧ 0 ≤ k ∧
               ∃ host port, server_list !! Z.to_nat k = Some (host, port) ∧
                            addr = (gethostbyname host, port)).
Proof.
  cbv zeta. unfold Connections.set_up_connections.
  set (f := λ (i : nat) (hp : string * Z),
              (Z.of_nat i, (gethostbyname hp.1, hp.2))).
  assert (Hmem : ∀ k addr,
            (k, addr) ∈ filter (λ kv : Z * (string * Z), kv.1 ≠ id)
                          (imap f server_list)
            ↔ k ≠ id ∧ 0 ≤ k ∧
              ∃ host port, server_list !! Z.to_nat k = Some (host, port) ∧
                           addr = (gethostbyname host, port)).
  { intros k addr. rewrite list_elem_of_filter, elem_of_lookup_imap. simpl.
    split.
    - intros [Hne (i & [host port] & [= -> ->] & Hi)].
      split_and!; [done | lia |]. exists host, port.
      by rewrite Nat2Z.id.
    - intros (Hne & Hk & host & port & Hl & ->). split; [done|].
      exists (Z.to_nat k), (host, port). split; [|done].
      unfold f. simpl. f_equal. lia. }
  split_and!.
  - eapply sublist_NoDup;
      [|apply fmap_sublist, sublist_filter].
    rewrite fmap_imap.
    rewrite (imap_ext _ (λ j _, Z.of_nat j)) by done.
    rewrite imap_seq_0. apply NoDup_fmap_2; [apply _ | apply NoDup_seq].
  - intros k. rewrite list_elem_of_fmap. split.
    + intros ([k' addr] & -> & Hin). apply Hmem in Hin
        as (Hne & Hk & host & port & Hl & _).
      apply lookup_lt_Some in Hl. unfold Py.len. simpl. lia.
    + intros [Hk Hne].
      destruct (lookup_lt_is_Some_2 server_list (Z.to_nat k))
        as [[host port] Hl]; [unfold Py.len in Hk; lia|].
      exists (k, (gethostbyname host, port)). split; [done|].
      apply Hmem. split_and!; [done | lia |]. by exists host, port.
  - exact Hmem.
Qed.
End connections.

(** * Quorums *)

Lemma count_matching_antitone (M M' : Z) (vals : list Z) :
  M ≤ M' → Roles.count_matching M' vals ≤ Roles.count_matching M vals.
Proof.
  intros HM. unfold Roles.count_matching.
  assert (H : ∀ acc acc', acc ≤ acc' →
            foldl (λ n mi, n + (if M' <=? mi then 1 else 0)) acc vals
            ≤ foldl (λ n mi, n + (if M <=? mi then 1 else 0)) acc' vals).
  { induction vals as [|x vals IH]; intros acc acc' Hacc; simpl; [done|].
    apply IH.
    destruct (Z.leb_spec M' x), (Z.leb_spec M x); lia. }
  by apply H.
Qed.

(** An index the loop commits has the peers it needs. *)
Lemma commit_loop_hit (vals : list Z) (majority : Z) (logs : list entry)
    (current_term commit_index : Z) (n : nat) (top c : Z) :
  Roles.commit_loop n top vals majority logs current_term commit_index
  = Ok c →
  c = commit_index ∨ majority - 1 ≤ Roles.count_matching c vals.
Proof.
  revert top. induction n as [|n IH]; intros top; simpl.
  - intros [= <-]. by left.
  - destruct (Z.geb_spec (Roles.count_matching top vals) (majority - 1));
      [|by apply IH].
    destruct (Py.get logs (top - 1)) as [e|]; [|done].
    destruct (_ =? _); [|by apply IH].
    intros [= <-]. by right.
Qed.

(** X20: a write stays blocked while no majority holds its entry.  After a
    round that leaves the Leader Leader, if the peers whose match index
    reaches the pending index, plus one, are fewer than the majority, the
    commit index is still below the pending index and [updatefile] goes on
    waiting. *)
Theorem write_blocked_without_majority (s s' : SurfstoreServer.t)
    (ni mi ni' mi' : gmap Z Z)
    (reply : Z → AppendEntriesArgs → option (Z * bool))
    (pending_index : Z) (filename : string) (version : Z)
    (blocklist : list hash) :
  SurfstoreServer.state s = Some (Leader ni mi) →
  SurfstoreServer.lock s = false →
  Roles.append_entry reply s = (s', Ok false) →
  SurfstoreServer.state s' = Some (Leader ni' mi') →
  SurfstoreServer.commit_index s < pending_index →
  Spec.peers_matching mi' pending_index + 1 < SurfstoreServer.majority s →
  SurfstoreServer.commit_index s' < pending_index ∧
  SurfstoreServer.updatefile_wait s' pending_index filename version
    blocklist = (s', Spin).
Proof.
  intros Hst Hlock Hround Hst' Hci Hfew.
  assert (Hc : SurfstoreServer.commit_index s' < pending_index).
  { revert Hround. unfold Roles.append_entry. rewrite Hst, Hlock.
    destruct (Roles.peers_loop _ _ _ _ _) as [a [[]| |]]; [|done|done].
    unfold Roles.advance_commit.
    destruct (Roles.py_max _) as [top|]; [|done].
    destruct (Roles.commit_loop _ _ _ _ _ _ _) as [c| |] eqn:Hloop;
      [|done|done].
    destruct (_ >? _); [done|]. intros [= <-]. simpl in *.
    injection Hst' as <- <-.
    destruct (commit_loop_hit _ _ _ _ _ _ _ _ Hloop) as [->|Hhit];
      [done|].
    destruct (Z.lt_ge_cases c pending_index) as [|Hge]; [done|].
    pose proof (count_matching_antitone pending_index c
                  (Roles.values (Roles.match_indexes a)) Hge).
    rewrite (count_matching_peers pending_index) in *.
    unfold SurfstoreServer.majority in *. simpl in Hhit. lia. }
  split; [done|]. unfold SurfstoreServer.updatefile_wait,
    SurfstoreServer.isLeader. rewrite Hst'. simpl.
  destruct (Z.ltb_spec (SurfstoreServer.commit_index s') pending_index);
    [done | lia].
Qed.

Lemma write_blocked_without_majority_witness :
  SurfstoreServer.updatefile_wait
    (Roles.append_entry no_answer leader3_pending).1 1 "a" 1 ["h1"]
  = ((Roles.append_entry no_answer leader3_pending).1, Spin).
Proof.
  refine (proj2 (write_blocked_without_majority leader3_pending
                   (Roles.append_entry no_answer leader3_pending).1
                   (SurfstoreServer.peer_dict leader3 1)
                   (SurfstoreServer.peer_dict leader3 0)
                   (SurfstoreServer.peer_dict leader3 1)
                   (SurfstoreServer.peer_dict leader3 0)
                   no_answer 1 "a" 1 ["h1"] _ _ _ _ _ _)).
  - vm_compute. reflexivity.
  - reflexivity.
  - vm_compute. reflexivity.
  - vm_compute. reflexivity.
  - vm_compute. reflexivity.
  - vm_compute. reflexivity.
Defined.

Lemma granted_answers (reply : Z → option (Z * bool)) (ps : list Z) :
  Py.len (List.filter (Spec.granted reply) ps)
  ≤ Py.len (List.filter (answers reply) ps).
Proof.
  unfold Py.len. induction ps as [|p ps IH]; simpl; [done|].
  unfold Spec.granted at 1, answers at 1.
  destruct (reply p) as [[t [|]]|]; simpl; lia.
Qed.

(** X21: no quorum, no Leader.  A Candidate whose round reaches so few
    peers that, counting itself, they are fewer than num_servers // 2 + 1
    is not Leader after the round, whatever the peers it reached
    answered. *)
Theorem no_quorum_no_leader (s : SurfstoreServer.t)
    (reply : Z → RequestVoteArgs → option (Z * bool)) :
  SurfstoreServer.state s = Some Candidate →
  SurfstoreServer.lock s = false →
  1 + Py.len (List.filter (answers (λ p, reply p (round_request s)))
                (SurfstoreServer.proxies s))
  < SurfstoreServer.num_servers s / 2 + 1 →
  SurfstoreServer.isLeader (Roles.elect_leader reply s).1 = false.
Proof.
  intros Hst Hlock Hfew. unfold Roles.elect_leader. rewrite Hst, Hlock.
  match goal with
  | |- context [Roles.collect_votes ?f ?ps ?l ?v] =>
      pose proof (collect_votes_votes f ps l v) as Hv;
      destruct (Roles.collect_votes f ps l v) as [latest votes]
  end.
  simpl in Hv.
  change (Roles.vote_request _) with (round_request s) in Hv.
  pose proof (granted_answers (λ p, reply p (round_request s))
                (SurfstoreServer.proxies s)).
  change (SurfstoreServer.majority _)
    with (SurfstoreServer.num_servers s / 2 + 1).
  destruct (Z.geb_spec votes (SurfstoreServer.num_servers s / 2 + 1));
    [lia|].
  destruct (_ >? _); unfold SurfstoreServer.isLeader; simpl;
    by rewrite ?Hst.
Qed.

Lemma no_quorum_no_leader_witness :
  SurfstoreServer.isLeader
    (Roles.elect_leader no_vote_answer candidate3).1 = false.
Proof.
  apply (no_quorum_no_leader candidate3 no_vote_answer eq_refl eq_refl).
  vm_compute. reflexivity.
Defined.

(** * Applying in log order *)

Lemma apply_loop_updatefiles (n : nat) (idx : Z) (logs : list entry)
    (fi fi' : file_infos_t) :
  0 ≤ idx →
  SurfstoreServer.apply_loop n idx logs fi = (fi', Ok tt) →
  fi' = (Calls.updatefiles (snd <$> take n (drop (Z.to_nat idx) logs)) fi).1.
Proof.
  revert idx fi. induction n as [|n IH]; intros idx fi Hidx; simpl.
  - by intros [= <-].
  - unfold Py.get. destruct (Z.ltb_spec idx 0); [lia|].
    destruct (logs !! Z.to_nat idx) as [[tm [[f v] b]]|] eqn:He; [|done].
    simpl. rewrite (drop_S _ _ _ He). simpl.
    destruct (SurfStore.updatefile fi f v b) as [fi1 r].
    intros Hrest.
    assert (Hloop : SurfstoreServer.apply_loop n (idx + 1) logs fi1
                    = (fi', Ok tt)) by (destruct r; done).
    apply IH in Hloop; [|lia].
    replace (Z.to_nat (idx + 1)) with (S (Z.to_nat idx)) in Hloop by lia.
    destruct (Calls.updatefiles _ fi1) as [fi2 rs]. by simpl in *.
Qed.

Lemma commit_and_apply_files (s s' : SurfstoreServer.t) (leader_commit : Z)
    (r : Z * bool) :
  Spec.index_invariant s →
  0 ≤ SurfstoreServer.last_applied s →
  SurfstoreServer.commit_and_apply s leader_commit = (s', Ok r) →
  SurfstoreServer.file_infos s'
  = (Calls.updatefiles
       (snd <$> take (Z.to_nat (SurfstoreServer.commit_index s'
                                - SurfstoreServer.last_applied s))
                  (drop (Z.to_nat (SurfstoreServer.last_applied s))
                     (SurfstoreServer.logs s)))
       (SurfstoreServer.file_infos s)).1.
Proof.
  intros Hinv Hla. rewrite (commit_and_apply_normal s leader_commit Hinv).
  cbv zeta.
  destruct (SurfstoreServer.apply_loop _ _ _ _) as [fi [[]| |]] eqn:Hloop;
    [|done|done].
  intros [= <- _]. simpl. by apply apply_loop_updatefiles in Hloop.
Qed.

(** X22: an AppendEntries that replies success, on a replica satisfying
    0 ≤ LastApplied ≤ CommitIndex ≤ len(Log) and without leaving the log
    shorter than the commit index, has applied to the file store exactly
    the commands of its log from the old LastApplied up to the new
    CommitIndex, in log order, each by one [updatefile] call. *)
Theorem appendEntries_applies_in_order (s s' : SurfstoreServer.t)
    (term prev_index prev_term : Z) (entries : list entry)
    (leader_commit t : Z) :
  Spec.index_invariant s →
  0 ≤ SurfstoreServer.last_applied s →
  SurfstoreServer.lock s = false →
  SurfstoreServer.appendEntries s term prev_index prev_term entries
    leader_commit = (s', Ok (t, true)) →
  SurfstoreServer.commit_index s ≤ Py.len (SurfstoreServer.logs s') →
  SurfstoreServer.file_infos s'
  = (Calls.updatefiles
       (snd <$> take (Z.to_nat (SurfstoreServer.commit_index s'
                                - SurfstoreServer.last_applied s))
                  (drop (Z.to_nat (SurfstoreServer.last_applied s))
                     (SurfstoreServer.logs s')))
       (SurfstoreServer.file_infos s)).1.
Proof.
  intros Hinv Hla0 Hlock. unfold SurfstoreServer.appendEntries.
  rewrite Hlock. simpl.
  destruct (SurfstoreServer.is_crashed s); [done|].
  destruct (SurfstoreServer.state s) as [st|]; [|done].
  match goal with
  | |- context [SurfstoreServer.check_term ?tm ?x] =>
      pose proof (check_term_same tm x) as (Hl & Hc & Ha);
      pose proof (check_term_pass_files tm x) as Hf;
      destruct (SurfstoreServer.check_term tm x) as [s1 ok]
  end.
  simpl in Hl, Hc, Ha, Hf. destruct ok; simpl; [|done].
  assert (Hinv1 : Spec.index_invariant s1)
    by (unfold Spec.index_invariant in *; rewrite Hl, Hc, Ha; done).
  destruct entries as [|e entries].
  - intros Hr _.
    pose proof (commit_and_apply_logs s1 leader_commit) as Hlogs.
    rewrite Hr in Hlogs. simpl in Hlogs.
    rewrite (commit_and_apply_files _ _ _ _ Hinv1 ltac:(lia) Hr).
    by rewrite Hlogs, Ha, Hf.
  - destruct (SurfstoreServer.mismatch _ _ _) as [[|]|]; [done| |done].
    destruct (SurfstoreServer.conflict_loop _ _ _) as [logs'| |];
      [|done|done].
    intros Hr Hlen.
    pose proof (commit_and_apply_logs
                  (SurfstoreServer.set_logs
                     (Py.assign_from logs' prev_index (e :: entries)) s1)
                  leader_commit) as Hlogs.
    rewrite Hr in Hlogs. simpl in Hlogs. rewrite Hlogs in Hlen.
    assert (Hinv2 : Spec.index_invariant
                      (SurfstoreServer.set_logs
                         (Py.assign_from logs' prev_index (e :: entries)) s1))
      by (unfold Spec.index_invariant in *; simpl; lia).
    rewrite (commit_and_apply_files _ _ _ _ Hinv2 ltac:(simpl; lia) Hr).
    simpl. by rewrite Hlogs, Ha, Hf.
Qed.

Lemma appendEntries_applies_in_order_witness :
  SurfstoreServer.file_infos follower2
  = (Calls.updatefiles [("a", 1, ["h1"]); ("b", 1, ["h2"])] ∅).1.
Proof.
  rewrite (appendEntries_applies_in_order follower0 follower2 1 0 0
             [entry_a1; entry_b1] 2 1).
  - reflexivity.
  - vm_compute. split; discriminate.
  - vm_compute. discriminate.
  - reflexivity.
  - vm_compute. reflexivity.
  - vm_compute. discriminate.
Defined.

(** * The election timer of a Follower *)

(** X23: a RequestVote served by an up Follower counts as an observation
    only if its term is not above the Follower's: after a request of a
    stale or equal term the next election timeout keeps it Follower (and
    clears the flag), whereas a request of a higher term replaces the role
    object by a fresh Follower, so the next timeout makes it Candidate. *)
Theorem requestVote_and_timeout (s : SurfstoreServer.t) (b : bool)
    (term candidate_id log_index log_term : Z) :
  SurfstoreServer.state s = Some (Follower b) →
  SurfstoreServer.lock s = false →
  SurfstoreServer.is_crashed s = false →
  let s' := (SurfstoreServer.requestVote s term candidate_id
               log_index log_term).1 in
  (term ≤ SurfstoreServer.current_term s →
   SurfstoreServer.state s' = Some (Follower true) ∧
   Roles.convert_to_candidate s'
   = (SurfstoreServer.set_state (Some (Follower false)) s', Ok false)) ∧
  (SurfstoreServer.current_term s < term →
   SurfstoreServer.state s' = Some (Follower false) ∧
   (Roles.convert_to_candidate s').2 = Ok true ∧
   SurfstoreServer.state (Roles.convert_to_candidate s').1
   = Some Candidate).
Proof.
  intros Hst Hlock Hup. cbv zeta.
  unfold SurfstoreServer.requestVote. rewrite Hlock. simpl.
  rewrite Hup, Hst. simpl. unfold SurfstoreServer.check_term. simpl.
  split; intros Hterm.
  - destruct (Z.ltb_spec term (SurfstoreServer.current_term s)); simpl.
    + split; [done|]. unfold Roles.convert_to_candidate. by simpl.
    + destruct (Z.gtb_spec term (SurfstoreServer.current_term s)); [lia|].
      simpl. destruct (_ && _); simpl; (split; [done|]);
        unfold Roles.convert_to_candidate; by simpl.
  - destruct (Z.ltb_spec term (SurfstoreServer.current_term s)); [lia|].
    destruct (Z.gtb_spec term (SurfstoreServer.current_term s)); [|lia].
    simpl. destruct (Py.pair_le _ _); simpl; (split; [done|]);
      unfold Roles.convert_to_candidate; by simpl.
Qed.

Lemma requestVote_and_timeout_witness :
  SurfstoreServer.state
    (Roles.convert_to_candidate
       (SurfstoreServer.requestVote follower0 1 7 0 0).1).1
  = Some Candidate.
Proof.
  destruct (requestVote_and_timeout follower0 false 1 7 0 0
              eq_refl eq_refl eq_refl) as [_ Hhigh].
  apply Hhigh. vm_compute. reflexivity.
Defined.
